(** * Advent of Code 2021, days 1 and 2: the two solvers and their contracts

    [src/2021/01/day01.py] counts the increases of a sliding-window average
    over a sequence of sonar measurements; [src/2021/02/day02.py] folds a
    list of piloting instructions into a position.  Both are written with
    [functools.reduce] over a Python function that may raise.

    The development has these layers:
    - [Runtime]: the fragment of the Python run time the two scripts rely
      on (exceptions, unbounded integers, binary64 floats, [sum], [/],
      [str.split], [str.strip], [int], lazy [map]);
    - [Day01] and [Day02]: the functions of the scripts, one definition per
      Python function, with the names of the source;
    - the vocabulary in which the properties are stated;
    - facts about the run time, in particular what [int / int] rounds to;
    - the properties of the scripts, stated over these definitions. *)

From Stdlib Require Import ZArith List String Ascii Bool Lia Permutation.
From Stdlib Require Import SpecFloat DecimalString DecimalZ DecimalPos.
Import ListNotations.

Local Open Scope Z_scope.

(* ===================================================================== *)
(** * The Python run time used by the scripts *)
(* ===================================================================== *)

Module Runtime.

(** ** Exceptions and the error monad

    A Python call either returns a value or raises.  The exceptions that can
    arise here are [ValueError], [OverflowError] and [ZeroDivisionError];
    each carries its message.  The message of a failed [int(s)] embeds
    [repr(s)], which is not spelled out: the offending argument is kept
    instead. *)

Inductive exn : Type :=
| ValueError (msg : string)
| InvalidLiteral (arg : string)
    (* ValueError: invalid literal for int() with base 10: repr(arg) *)
| OverflowError (msg : string)
| ZeroDivisionError (msg : string).

Definition result (A : Type) : Type := (exn + A)%type.

Definition ret {A} (a : A) : result A := inr a.
Definition raise {A} (e : exn) : result A := inl e.

Definition bind {A B} (c : result A) (k : A -> result B) : result B :=
  match c with
  | inl e => inl e
  | inr a => k a
  end.

Declare Scope py_scope.
Delimit Scope py_scope with py.
Notation "x <- c ;; k" := (bind c (fun x => k))
  (at level 61, c at next level, right associativity) : py_scope.
Notation "' p <- c ;; k" := (bind c (fun x => let 'p := x in k))
  (at level 61, p pattern, c at next level, right associativity) : py_scope.
Local Open Scope py_scope.

(** [functools.reduce(function, iterable, initializer)]: a left fold that
    stops at the first exception. *)
Fixpoint reduce {A B} (function : A -> B -> result A) (iterable : list B)
         (initializer : A) : result A :=
  match iterable with
  | [] => ret initializer
  | x :: rest => acc <- function initializer x ;; reduce function rest acc
  end.

(** ** Numbers

    A Python [int] is an unbounded integer; a Python [float] is an IEEE 754
    binary64 value, here the [spec_float] of the Standard Library at
    precision 53 and maximal exponent 1024. *)

Definition prec : Z := 53.
Definition emax : Z := 1024.

Definition float : Type := spec_float.

Inductive number : Type :=
| PyInt (z : Z)
| PyFloat (f : float).

(** [math.inf] *)
Definition inf : float := S754_infinity false.

Definition is_zero (f : float) : bool :=
  match f with S754_zero _ => true | _ => false end.

(** [x > y] and [x == y] on floats. *)
Definition float_gt (x y : float) : bool := SFltb y x.
Definition float_eq (x y : float) : bool := SFeqb x y.

(** Conversion of an [int] to a [float] ([PyLong_AsDouble]): the nearest
    binary64 value, ties to even; [OverflowError] beyond the finite range. *)
Definition float_of_int (z : Z) : result float :=
  match binary_normalize prec emax z 0 false with
  | S754_infinity _ => raise (OverflowError "int too large to convert to float")
  | f => ret f
  end.

(** An integer as an exact (not normalised) binary number. *)
Definition exact_of_int (z : Z) : spec_float :=
  match z with
  | Z0 => S754_zero false
  | Zpos p => S754_finite false p 0
  | Zneg p => S754_finite true p 0
  end.

(** [a / b] on two [int]s: the exact quotient rounded once to binary64. *)
Definition int_truediv (a b : Z) : result float :=
  if b =? 0 then raise (ZeroDivisionError "division by zero")
  else
    match SFdiv prec emax (exact_of_int a) (exact_of_int b) with
    | S754_infinity _ =>
        raise (OverflowError "integer division result too large for a float")
    | f => ret f
    end.

Definition float_truediv (x y : float) : result float :=
  if is_zero y then raise (ZeroDivisionError "float division by zero")
  else ret (SFdiv prec emax x y).

(** [x + y] *)
Definition add (x y : number) : result number :=
  match x, y with
  | PyInt a, PyInt b => ret (PyInt (a + b))
  | PyInt a, PyFloat g => f <- float_of_int a ;; ret (PyFloat (SFadd prec emax f g))
  | PyFloat f, PyInt b => g <- float_of_int b ;; ret (PyFloat (SFadd prec emax f g))
  | PyFloat f, PyFloat g => ret (PyFloat (SFadd prec emax f g))
  end.

(** [x / y]: always a float. *)
Definition truediv (x y : number) : result float :=
  match x, y with
  | PyInt a, PyInt b => int_truediv a b
  | PyInt a, PyFloat g => f <- float_of_int a ;; float_truediv f g
  | PyFloat f, PyInt b => g <- float_of_int b ;; float_truediv f g
  | PyFloat f, PyFloat g => float_truediv f g
  end.

(** [sum(iterable)]: the items are added from left to right, starting from
    the integer 0.  (On floats alone CPython 3.12 and later also carries a
    compensation term; it changes no sum of integers and no sum that holds
    an infinity or a NaN.) *)
Fixpoint sum_from (start : number) (iterable : list number) : result number :=
  match iterable with
  | [] => ret start
  | x :: rest => acc <- add start x ;; sum_from acc rest
  end.

Definition sum (iterable : list number) : result number :=
  sum_from (PyInt 0) iterable.

(** [round(x)] on a float: the nearest integer, ties to even; it raises on
    NaN and on the infinities. *)
Definition round_half_even (num den : Z) : Z :=
  let q := num / den in
  let r := num mod den in
  match 2 * r ?= den with
  | Lt => q
  | Gt => q + 1
  | Eq => if Z.even q then q else q + 1
  end.

Definition round (x : float) : result Z :=
  match x with
  | S754_nan => raise (ValueError "cannot convert float NaN to integer")
  | S754_infinity _ => raise (OverflowError "cannot convert float infinity to integer")
  | S754_zero _ => ret 0
  | S754_finite s m e =>
      let v := match e with
               | Zneg p => round_half_even (Zpos m) (2 ^ Zpos p)
               | _ => Zpos m * 2 ^ e
               end in
      ret (if s then - v else v)
  end.

(** ** Text

    A [str] is a [string]; its characters are the code points 0 to 255. *)

(** [s.split(" ", 1)]: [None] when [s] has no space (the list has one
    element), otherwise the text before and after the first space. *)
Fixpoint split_space (s : string) : option (string * string) :=
  match s with
  | EmptyString => None
  | String c rest =>
      if Ascii.eqb c " " then Some (EmptyString, rest)
      else match split_space rest with
           | Some (before, after) => Some (String c before, after)
           | None => None
           end
  end.

(** White space for [int()]: tab, line feed, vertical tab, form feed,
    carriage return and space, and in the upper half NEL and the no-break
    space. *)
Definition isspace (c : ascii) : bool :=
  let n := Z.of_nat (nat_of_ascii c) in
  ((9 <=? n) && (n <=? 13)) || (n =? 32) || (n =? 133) || (n =? 160).

Definition digit_value (c : ascii) : option Z :=
  let n := Z.of_nat (nat_of_ascii c) in
  if (48 <=? n) && (n <=? 57) then Some (n - 48) else None.

Fixpoint lstrip (s : string) : string :=
  match s with
  | String c rest => if isspace c then lstrip rest else s
  | EmptyString => s
  end.

Fixpoint all_space (s : string) : bool :=
  match s with
  | String c rest => isspace c && all_space rest
  | EmptyString => true
  end.

(** The digits of a decimal literal: single underscores may separate two
    digits.  Returns the value and the text left after the last digit. *)
Fixpoint scan_digits (acc : Z) (prev_underscore : bool) (s : string)
  : option (Z * string) :=
  match s with
  | EmptyString => if prev_underscore then None else Some (acc, s)
  | String c rest =>
      match digit_value c with
      | Some d => scan_digits (10 * acc + d) false rest
      | None =>
          if Ascii.eqb c "_" then
            if prev_underscore then None else scan_digits acc true rest
          else if prev_underscore then None else Some (acc, s)
      end
  end.

Definition parse_int (s : string) : option Z :=
  let s := lstrip s in
  let '(negative, s) :=
    match s with
    | String "+" rest => (false, rest)
    | String "-" rest => (true, rest)
    | _ => (false, s)
    end in
  match s with
  | EmptyString => None
  | String c _ =>
      match digit_value c with
      | None => None
      | Some _ =>
          match scan_digits 0 false s with
          | Some (n, rest) =>
              if all_space rest then Some (if negative then - n else n) else None
          | None => None
          end
      end
  end.

(** [int(s)] for a string [s], base 10: optional white space, an optional
    sign, decimal digits, optional white space.  The interpreter's optional
    cap on the number of digits ([sys.set_int_max_str_digits]) is not part
    of the language and is taken to be off. *)
Definition int (s : string) : result Z :=
  match parse_int s with
  | Some z => ret z
  | None => raise (InvalidLiteral s)
  end.


(** ** Lazy iterables, [str.strip] and [print]

    [map(function, iterable)] computes an item when its consumer asks for
    it, and computing it may raise: the iterator is the list of these
    computations, in the order in which they are asked for. *)
Definition lazy_map {A B} (function : A -> result B) (iterable : list A)
  : list (result B) :=
  List.map function iterable.

(** [functools.reduce] over such an iterator: the next item is computed,
    then the function is applied to it. *)
Fixpoint reduce_lazy {A B} (function : A -> B -> result A)
         (iterable : list (result B)) (initializer : A) : result A :=
  match iterable with
  | [] => ret initializer
  | item :: rest =>
      x <- item ;;
      acc <- function initializer x ;;
      reduce_lazy function rest acc
  end.

(** White space for [str.strip]: that of [int], and the four separators
    FS, GS, RS and US (code points 28 to 31), which [int] rejects. *)
Definition str_isspace (c : ascii) : bool :=
  let n := Z.of_nat (nat_of_ascii c) in
  isspace c || ((28 <=? n) && (n <=? 31)).

Fixpoint strip_leading (s : string) : string :=
  match s with
  | String c rest => if str_isspace c then strip_leading rest else s
  | EmptyString => s
  end.

Fixpoint strip_trailing (s : string) : string :=
  match s with
  | EmptyString => EmptyString
  | String c rest =>
      match strip_trailing rest with
      | EmptyString => if str_isspace c then EmptyString else String c EmptyString
      | kept => String c kept
      end
  end.

(** [s.strip()] *)
Definition strip (s : string) : string := strip_trailing (strip_leading s).

(** What a script hands to [print] for its standard output: the text of
    the puzzle, the module constant [CHALLENGE], or an integer. *)
Inductive output : Type :=
| PrintChallenge
| PrintInt (value : Z).

End Runtime.

Import Runtime.
Local Open Scope py_scope.

(* ===================================================================== *)
(** * Day 1: Sonar Sweep ([src/2021/01/day01.py]) *)
(* ===================================================================== *)

Module Day01.

Section Increases.

Variable window_size : Z.
Variable verbose : bool.

(** [out]: the trace line goes to the standard error stream and is not
    part of the result; what remains of the call is whether building the
    line raises.  With [window_size > 1] the line holds [round(new)]
    unless [new == inf]. *)
Definition out (new : float) (window : list number) (increase : bool)
  : result unit :=
  if verbose then
    if 1 <? window_size then
      if float_eq new inf then ret tt
      else (_ <- round new ;; ret tt)
    else ret tt
  else ret tt.

Definition count (last : Z * list number) (measurement : number)
  : result (Z * list number) :=
  let '(increases, window) := last in
  let window := window ++ [measurement] in
  total_new <- sum (tl window) ;;
  new <- truediv total_new (PyInt window_size) ;;
  total_old <- sum (removelast window) ;;
  old <- truediv total_old (PyInt window_size) ;;
  if float_gt new old then
    _ <- out new (tl window) true ;;
    ret (increases + 1, tl window)
  else
    _ <- out new (tl window) false ;;
    ret (increases, tl window).

End Increases.

(** [[inf] * window_size] is the list of that many sentinels. *)
Definition increases (measurements : list number) (window_size : Z)
           (verbose : bool) : result Z :=
  if window_size <=? 0 then
    raise (ValueError "Window size must be greater than zero")
  else
    '(incr, _) <- reduce (count window_size verbose) measurements
                     (0, repeat (PyFloat inf) (Z.to_nat window_size)) ;;
    ret incr.

(** [increases] when [measurements] is a lazy iterator, as [main] passes
    it: the window size is checked before any item is computed, and an
    item that raises stops the fold where it is asked for. *)
Definition increases_lazy (measurements : list (result number)) (window_size : Z)
           (verbose : bool) : result Z :=
  if window_size <=? 0 then
    raise (ValueError "Window size must be greater than zero")
  else
    '(incr, _) <- reduce_lazy (count window_size verbose) measurements
                     (0, repeat (PyFloat inf) (Z.to_nat window_size)) ;;
    ret incr.

(** [main], from the parsed arguments ([args.challenge], [args.window],
    [args.verbose]) and the lines the opened file yields, each with its
    line end: the command line parser and the opening of the file are
    left out. *)
Definition main (challenge : bool) (lines : list string) (window : Z)
           (verbose : bool) : result output :=
  if challenge then ret PrintChallenge
  else
    let measurements :=
      lazy_map (fun line => z <- int (strip line) ;; ret (PyInt z)) lines in
    count <- increases_lazy measurements window verbose ;;
    ret (PrintInt count).

End Day01.

(* ===================================================================== *)
(** * Day 2: Dive! ([src/2021/02/day02.py]) *)
(* ===================================================================== *)

Module Day02.

Definition MOVE_UP : string := "up".
Definition MOVE_DOWN : string := "down".
Definition MOVE_FORWARD : string := "forward".

Definition interpret (instruction : string) : result (string * Z) :=
  match split_space instruction with
  | None => raise (ValueError "not enough values to unpack (expected 2, got 1)")
  | Some (action, units) =>
      units <- int units ;;
      ret (action, units)
  end.

Definition process_simple (last : Z * Z) (instruction : string)
  : result (Z * Z) :=
  let '(horiz, depth) := last in
  '(action, units) <- interpret instruction ;;
  if String.eqb action MOVE_UP then ret (horiz, depth - units)
  else if String.eqb action MOVE_DOWN then ret (horiz, depth + units)
  else if String.eqb action MOVE_FORWARD then ret (horiz + units, depth)
  else raise (ValueError ("Unknown pilot command: " ++ action)%string).

Definition process_advanced (last : Z * Z * Z) (instruction : string)
  : result (Z * Z * Z) :=
  let '(horiz, depth, aim) := last in
  '(action, units) <- interpret instruction ;;
  if String.eqb action MOVE_UP then ret (horiz, depth, aim - units)
  else if String.eqb action MOVE_DOWN then ret (horiz, depth, aim + units)
  else if String.eqb action MOVE_FORWARD then
    ret (horiz + units, depth + units * aim, aim)
  else raise (ValueError ("Unknown pilot command: " ++ action)%string).

Definition pilot (instructions : list string) (advanced : bool) : result Z :=
  if advanced then
    '(horiz, depth, _) <- reduce process_advanced instructions (0, 0, 0) ;;
    ret (horiz * depth)
  else
    '(horiz, depth) <- reduce process_simple instructions (0, 0) ;;
    ret (horiz * depth).

(** [main], from the parsed arguments ([args.challenge], [args.advanced])
    and the lines the opened file yields.  [str.strip] never raises, so
    the lazy [map] of the source is the list of the stripped lines. *)
Definition main (challenge : bool) (lines : list string) (advanced : bool)
  : result output :=
  if challenge then ret PrintChallenge
  else
    let instructions := List.map strip lines in
    res <- pilot instructions advanced ;;
    ret (PrintInt res).

End Day02.

Import Day01 Day02.

(* ===================================================================== *)
(** * Vocabulary of the properties *)
(* ===================================================================== *)

(** ** Text *)

(** A token for [split]: a text without space. *)
Fixpoint no_space (s : string) : bool :=
  match s with
  | EmptyString => true
  | String c rest => negb (Ascii.eqb c " ") && no_space rest
  end.


(** ** Instructions *)

(** The direction tokens the two processors know. *)
Definition recognized (action : string) : bool :=
  String.eqb action MOVE_UP || String.eqb action MOVE_DOWN
  || String.eqb action MOVE_FORWARD.



(** A line of the record shape: it reads as a direction token and a
    magnitude. *)
Definition instruction (line : string) : Prop :=
  exists action units, interpret line = ret (action, units).

(** An instruction whose direction token is none of up, down, forward. *)
Definition unknown_direction (line : string) : Prop :=
  exists action units,
    interpret line = ret (action, units) /\ recognized action = false.

(** A line that reads as a known instruction. *)
Definition known_instruction (line : string) : Prop :=
  exists action units,
    interpret line = ret (action, units) /\ recognized action = true.

(** The two folds advance in lock step: from related states they fail
    with the same exception or reach related states. *)
Definition in_step (simple : result (Z * Z)) (advanced : result (Z * Z * Z)) : Prop :=
  match simple, advanced with
  | inr (horiz, depth), inr (horiz', _, aim') => horiz' = horiz /\ aim' = depth
  | inl e, inl e' => e = e'
  | _, _ => False
  end.

(** The example course of the puzzle text. *)
Definition example_course : list string :=
  ["forward 5"; "down 5"; "forward 8"; "up 3"; "down 8"; "forward 2"]%string.



(** ** Measurements *)

(** The example report of the puzzle text. *)
Definition example_report : list Z :=
  [199; 200; 208; 210; 200; 207; 240; 269; 260; 263].

(** The sum of a window, as an integer. *)
Definition total (zs : list Z) : Z := fold_right Z.add 0 zs.

(** The sum of the [w] measurements that start at position [i]. *)
Definition window_total (w i : nat) (ms : list Z) : Z :=
  total (firstn w (skipn i ms)).

(** The number of windows of [w] measurements whose sum strictly exceeds
    the sum of the window just before: window [i + 1], which ends at the
    measurement of position [i + w], against window [i]. *)
Definition count_increases (w : nat) (ms : list Z) : Z :=
  Z.of_nat
    (List.length
       (filter (fun i => window_total w i ms <? window_total w (S i) ms)
               (seq 0 (List.length ms - w)))).


(** An integer that converts to a float without overflow. *)
Definition fits_float (z : Z) : bool :=
  match float_of_int z with
  | inr _ => true
  | inl _ => false
  end.

Definition is_nan (f : float) : bool :=
  match f with S754_nan => true | _ => false end.

Definition is_neg_inf (f : float) : bool :=
  match f with S754_infinity true => true | _ => false end.

(** A measurement that can be added to the sentinel: an integer in the
    float range, or a float; when the trace is on, the sum has to stay
    infinite for [round] not to be called, which excludes NaN and minus
    infinity. *)
Definition usable (verbose : bool) (x : number) : bool :=
  match x with
  | PyInt z => fits_float z
  | PyFloat f => negb verbose || negb (is_nan f || is_neg_inf f)
  end.

(** The sum of a window that still holds a sentinel. *)
Definition sentinel_sum (verbose : bool) (f : float) : Prop :=
  f = inf \/ (verbose = false /\ f = S754_nan).

(** The sums whose averages the float division tells apart exactly. *)
Definition exact_average (w s : Z) : Prop :=
  (w = 1 /\ Z.abs s <= 2 ^ 53) \/ Z.abs s < 2 ^ 52.

Definition windows_exact (w : nat) (ms : list Z) : Prop :=
  forall i : nat, (i + w <= List.length ms)%nat ->
                  exact_average (Z.of_nat w) (window_total w i ms).

(** The exceptions the arithmetic of [count] can raise. *)
Definition arithmetic_error (e : exn) : Prop :=
  match e with
  | ValueError msg => msg = "cannot convert float NaN to integer"%string
  | InvalidLiteral _ => False
  | OverflowError _ => True
  | ZeroDivisionError _ => True
  end.

(** ** Binary64 rounding *)

(** The second half of [binary_round_aux]: renormalisation after the
    rounding of the mantissa, and the overflow test. *)
Definition finish (sx : bool) (m e : Z) : spec_float :=
  let '(mrs, e') := shr_fexp prec emax m e loc_Exact in
  match shr_m mrs with
  | Z0 => S754_zero sx
  | Zpos m => if e' <=? emax - prec then S754_finite sx m e' else S754_infinity sx
  | Zneg _ => S754_nan
  end.

(** A mantissa in the normal range, possibly carried to [2 ^ 53] by the
    rounding, with its exponent. *)
Definition normal_result (sx : bool) (m e : Z) : spec_float :=
  if m <? 2 ^ 53 then
    if e <=? 971 then S754_finite sx (Z.to_pos m) e else S754_infinity sx
  else
    if e + 1 <=? 971 then S754_finite sx (Z.to_pos (2 ^ 52)) (e + 1)
    else S754_infinity sx.

(** The position of the remainder [r] of a division by [w] with respect to
    the half of [w]. *)
Definition remainder_location (w r : Z) : location :=
  if r =? 0 then loc_Exact else loc_Inexact (2 * r ?= w).

(** The value of a finite float in units of the smallest positive one. *)
Definition scaled (m e : Z) : Z := m * 2 ^ (e + 1074).

(** The signed value of a float in units of the smallest positive one. *)
Definition sval (f : float) : Z :=
  match f with
  | S754_finite s m e => if s then - scaled (Zpos m) e else scaled (Zpos m) e
  | _ => 0
  end.

(** A zero or a normal number. *)
Definition normal_or_zero (f : float) : Prop :=
  match f with
  | S754_zero _ => True
  | S754_finite _ m e => 2 ^ 52 <= Zpos m < 2 ^ 53 /\ -1074 <= e
  | _ => False
  end.

(** ** Input files *)

(** A text made of [str.strip] white space only. *)
Fixpoint blank (s : string) : bool :=
  match s with
  | String c rest => str_isspace c && blank rest
  | EmptyString => true
  end.



(** The line feed that ends the lines of a file. *)
Definition LF : string := String "010" EmptyString.

(** ** Courses *)

Definition moves (direction : string) (course : list (string * Z)) : Z :=
  total (List.map snd (filter (fun i => String.eqb (fst i) direction) course)).

(** The distance travelled and the net descent of a course. *)
Definition travelled (course : list (string * Z)) : Z := moves MOVE_FORWARD course.

Definition descended (course : list (string * Z)) : Z :=
  moves MOVE_DOWN course - moves MOVE_UP course.

(** ** Exceptions and sentinels of the sliding window *)

(** The exceptions [increases] can raise once the window size is
    accepted: an [OverflowError] of the arithmetic or of [round], and the
    [ValueError] of [round] on a NaN, which takes the trace and a window
    of more than one measurement. *)
Definition fold_error (window_size : Z) (verbose : bool) (e : exn) : Prop :=
  match e with
  | OverflowError _ => True
  | ValueError msg =>
      verbose = true /\ 1 < window_size
      /\ msg = "cannot convert float NaN to integer"%string
  | InvalidLiteral _ => False
  | ZeroDivisionError _ => False
  end.

(** The float is the sentinel or a NaN: nothing compares greater than
    it. *)
Definition top (f : float) : Prop := f = inf \/ f = S754_nan.

(** An item of a window of integer measurements: a measurement or the
    sentinel. *)
Definition int_or_sentinel (x : number) : Prop :=
  x = PyFloat inf \/ exists z, x = PyInt z.

(** Minus infinity. *)
Definition neg_inf : float := S754_infinity true.

(** The floats that [round] rejects and [out] does not guard against. *)
Definition unguarded (f : float) : Prop := f = S754_nan \/ f = neg_inf.

(* ===================================================================== *)
(** * Facts about the run time *)
(* ===================================================================== *)

Section ErrorMonad.

Context {A B : Type}.

Lemma reduce_app (f : A -> B -> result A) (l1 l2 : list B) (init : A) :
  reduce f (l1 ++ l2) init = bind (reduce f l1 init) (reduce f l2).
Proof.
  revert init; induction l1 as [| x l1 IH]; intros init; simpl; [reflexivity |].
  destruct (f init x) as [e | acc]; simpl; [reflexivity | apply IH].
Qed.

End ErrorMonad.

(** ** [str.split] and [int] *)

Section Text.

Local Open Scope string_scope.

Lemma split_space_app (tok rest : string) :
  no_space tok = true ->
  split_space (tok ++ String " " rest) = Some (tok, rest).
Proof.
  induction tok as [| c tok IH]; simpl; [reflexivity |].
  intros H; apply andb_true_iff in H; destruct H as [Hc Htok].
  apply negb_true_iff in Hc; rewrite Hc, (IH Htok); reflexivity.
Qed.

Lemma split_space_None (s : string) :
  no_space s = true -> split_space s = None.
Proof.
  induction s as [| c s IH]; simpl; [reflexivity |].
  intros H; apply andb_true_iff in H; destruct H as [Hc Hs].
  apply negb_true_iff in Hc; rewrite Hc, (IH Hs); reflexivity.
Qed.









End Text.

(* ===================================================================== *)
(** * Day 2: the instruction format and the two folds *)
(* ===================================================================== *)

Section Day02Facts.

Local Open Scope string_scope.

Lemma recognized_cases (action : string) :
  recognized action = true ->
  action = MOVE_UP \/ action = MOVE_DOWN \/ action = MOVE_FORWARD.
Proof.
  unfold recognized; intros H.
  apply orb_true_iff in H; destruct H as [H | H];
    [apply orb_true_iff in H; destruct H as [H | H] |];
    apply String.eqb_eq in H; auto.
Qed.


(** A line without a space is not split: unpacking its single part
    raises. *)
Lemma interpret_no_space (line : string) :
  no_space line = true ->
  interpret line
  = raise (ValueError "not enough values to unpack (expected 2, got 1)").
Proof. intros H; unfold interpret; rewrite (split_space_None _ H); reflexivity. Qed.


Lemma process_simple_known horiz depth line action units :
  interpret line = ret (action, units) -> recognized action = true ->
  process_simple (horiz, depth) line
  = ret (if String.eqb action MOVE_FORWARD then horiz + units else horiz,
         if String.eqb action MOVE_UP then depth - units
         else if String.eqb action MOVE_DOWN then depth + units else depth).
Proof.
  intros Hi Hr; unfold process_simple; rewrite Hi; simpl.
  destruct (recognized_cases _ Hr) as [-> | [-> | ->]]; reflexivity.
Qed.

Lemma process_advanced_known horiz depth aim line action units :
  interpret line = ret (action, units) -> recognized action = true ->
  process_advanced (horiz, depth, aim) line
  = ret (if String.eqb action MOVE_FORWARD then horiz + units else horiz,
         if String.eqb action MOVE_FORWARD then depth + units * aim else depth,
         if String.eqb action MOVE_UP then aim - units
         else if String.eqb action MOVE_DOWN then aim + units else aim).
Proof.
  intros Hi Hr; unfold process_advanced; rewrite Hi; simpl.
  destruct (recognized_cases _ Hr) as [-> | [-> | ->]]; reflexivity.
Qed.

Lemma process_simple_unknown last line action units :
  interpret line = ret (action, units) -> recognized action = false ->
  process_simple last line = raise (ValueError ("Unknown pilot command: " ++ action)).
Proof.
  intros Hi Hr; destruct last as [horiz depth].
  unfold process_simple; rewrite Hi; simpl.
  unfold recognized in Hr.
  apply orb_false_iff in Hr; destruct Hr as [Hr ->].
  apply orb_false_iff in Hr; destruct Hr as [-> ->]; reflexivity.
Qed.

Lemma process_advanced_unknown last line action units :
  interpret line = ret (action, units) -> recognized action = false ->
  process_advanced last line = raise (ValueError ("Unknown pilot command: " ++ action)).
Proof.
  intros Hi Hr; destruct last as [[horiz depth] aim].
  unfold process_advanced; rewrite Hi; simpl.
  unfold recognized in Hr.
  apply orb_false_iff in Hr; destruct Hr as [Hr ->].
  apply orb_false_iff in Hr; destruct Hr as [-> ->]; reflexivity.
Qed.

Lemma reduce_simple_known (lines : list string) :
  Forall known_instruction lines ->
  forall last, exists next, reduce process_simple lines last = ret next.
Proof.
  induction 1 as [| line lines (action & units & Hi & Hr) _ IH]; intros last.
  - exists last; reflexivity.
  - destruct last as [horiz depth]; cbn [reduce].
    rewrite (process_simple_known _ _ _ _ _ Hi Hr); apply IH.
Qed.

Lemma reduce_advanced_known (lines : list string) :
  Forall known_instruction lines ->
  forall last, exists next, reduce process_advanced lines last = ret next.
Proof.
  induction 1 as [| line lines (action & units & Hi & Hr) _ IH]; intros last.
  - exists last; reflexivity.
  - destruct last as [[horiz depth] aim]; cbn [reduce].
    rewrite (process_advanced_known _ _ _ _ _ _ Hi Hr); apply IH.
Qed.

Lemma process_in_step horiz depth depth' line :
  in_step (process_simple (horiz, depth) line)
          (process_advanced (horiz, depth', depth) line).
Proof.
  unfold process_simple, process_advanced.
  destruct (interpret line) as [e | [action units]]; cbn [bind]; [reflexivity |].
  destruct (String.eqb action MOVE_UP); [simpl; auto |].
  destruct (String.eqb action MOVE_DOWN); [simpl; auto |].
  destruct (String.eqb action MOVE_FORWARD); simpl; auto.
Qed.

Lemma reduce_in_step (lines : list string) :
  forall horiz depth depth',
    in_step (reduce process_simple lines (horiz, depth))
            (reduce process_advanced lines (horiz, depth', depth)).
Proof.
  induction lines as [| line lines IH]; intros horiz depth depth'.
  - simpl; auto.
  - cbn [reduce].
    pose proof (process_in_step horiz depth depth' line) as Hstep.
    destruct (process_simple (horiz, depth) line) as [e | [h d]],
             (process_advanced (horiz, depth', depth) line) as [e' | [[h' d'] a']];
      cbn [in_step] in Hstep; try contradiction.
    + subst e'; reflexivity.
    + destruct Hstep as [-> ->]; cbn [bind]; apply IH.
Qed.

Lemma Forall_firstn_known (k : nat) (lines : list string) :
  Forall known_instruction lines -> Forall known_instruction (firstn k lines).
Proof.
  intros H; revert k; induction H as [| line lines Hline _ IH]; intros [| k];
    cbn [firstn]; constructor; auto.
Qed.

(** C2.  On the example course the simple fold ends at horizontal 15 and
    depth 10 and [pilot] returns 150; the advanced fold ends at horizontal
    15, depth 60 (aim 10) and [pilot] returns 900. *)
Theorem pilot_example_course :
  reduce process_simple example_course (0, 0) = ret (15, 10)
  /\ pilot example_course false = ret 150
  /\ reduce process_advanced example_course (0, 0, 0) = ret (15, 60, 10)
  /\ pilot example_course true = ret 900.
Proof. split; [| split; [| split]]; vm_compute; reflexivity. Qed.

(** A record with an unknown direction token that is reached through
    known instructions stops the fold: [pilot] raises the error that names
    the token, and whatever follows the record is never read. *)
Lemma pilot_aborts_at_unknown_direction
      (before : list string) (record : string) (after : list string)
      (token : string) (units : Z) (advanced : bool) :
  Forall known_instruction before ->
  interpret record = ret (token, units) ->
  recognized token = false ->
  pilot (before ++ record :: after) advanced
  = raise (ValueError ("Unknown pilot command: " ++ token)).
Proof.
  intros Hbefore Hrecord Htoken; unfold pilot; destruct advanced.
  - rewrite reduce_app.
    destruct (reduce_advanced_known _ Hbefore (0, 0, 0)) as [next ->].
    cbn [bind ret reduce].
    rewrite (process_advanced_unknown next _ _ _ Hrecord Htoken); reflexivity.
  - rewrite reduce_app.
    destruct (reduce_simple_known _ Hbefore (0, 0)) as [next ->].
    cbn [bind ret reduce].
    rewrite (process_simple_unknown next _ _ _ Hrecord Htoken); reflexivity.
Qed.

(** A record that does not read as an instruction stops the fold as
    well, with the exception of [interpret]. *)
Lemma pilot_aborts_at_malformed
      (before : list string) (record : string) (after : list string)
      (e : exn) (advanced : bool) :
  Forall known_instruction before ->
  interpret record = raise e ->
  pilot (before ++ record :: after) advanced = raise e.
Proof.
  intros Hbefore Hrecord; unfold pilot; destruct advanced.
  - rewrite reduce_app.
    destruct (reduce_advanced_known _ Hbefore (0, 0, 0)) as [[[h d] a] ->].
    cbn [bind ret reduce]; unfold process_advanced; rewrite Hrecord; reflexivity.
  - rewrite reduce_app.
    destruct (reduce_simple_known _ Hbefore (0, 0)) as [[h d] ->].
    cbn [bind ret reduce]; unfold process_simple; rewrite Hrecord; reflexivity.
Qed.

(** In a sequence of instructions that holds an unknown direction, the
    first such record comes after known instructions only. *)
Lemma first_unknown_direction (lines : list string) :
  Forall instruction lines -> Exists unknown_direction lines ->
  exists before record after token units,
    lines = (before ++ record :: after)%list
    /\ Forall known_instruction before
    /\ interpret record = ret (token, units)
    /\ recognized token = false.
Proof.
  induction 1 as [| line lines (action & units & Hline) _ IH]; intros Hex.
  - inversion Hex.
  - destruct (recognized action) eqn:Haction.
    + destruct IH as (before & record & after & token & units' & -> & Hb & Hr & Ht).
      * inversion Hex as [? ? (a & u & Ha & Hu) | ? ? Hrest]; subst; [| assumption].
        rewrite Hline in Ha; injection Ha as <- <-; congruence.
      * exists (line :: before), record, after, token, units'.
        repeat split; try assumption.
        constructor; [exists action, units; split |]; assumption.
    + exists [], line, lines, action, units.
      repeat split; try assumption; constructor.
Qed.

(** C4.  For every sequence of instructions (lines that read as a
    direction token and a magnitude) that holds a line whose direction
    token is none of up, down and forward, [pilot] raises, in simple and
    in advanced mode alike, the error whose message names the direction
    token of the first such line: the fold stops at that record. *)
Theorem pilot_unknown_direction (lines : list string) (advanced : bool) :
  Forall instruction lines ->
  Exists unknown_direction lines ->
  exists before record after token units,
    lines = (before ++ record :: after)%list
    /\ Forall known_instruction before
    /\ interpret record = ret (token, units)
    /\ recognized token = false
    /\ pilot lines advanced
       = raise (ValueError ("Unknown pilot command: " ++ token)).
Proof.
  intros Hlines Hex.
  destruct (first_unknown_direction lines Hlines Hex)
    as (before & record & after & token & units & -> & Hb & Hr & Ht).
  exists before, record, after, token, units.
  repeat split; try assumption.
  apply (pilot_aborts_at_unknown_direction _ _ _ _ units); assumption.
Qed.

Lemma pilot_unknown_direction_witness :
  exists before record after token units,
    ["forward 5"; "left 3"; "up 1"] = (before ++ record :: after)%list
    /\ Forall known_instruction before
    /\ interpret record = ret (token, units)
    /\ recognized token = false
    /\ pilot ["forward 5"; "left 3"; "up 1"] true
       = raise (ValueError ("Unknown pilot command: " ++ token)).
Proof.
  apply (pilot_unknown_direction ["forward 5"; "left 3"; "up 1"] true).
  - repeat constructor.
    + exists "forward", 5; reflexivity.
    + exists "left", 3; reflexivity.
    + exists "up", 1; reflexivity.
  - apply Exists_cons_tl, Exists_cons_hd.
    exists "left", 3; split; reflexivity.
Defined.




(** C9.  On a sequence of known instructions both folds succeed on every
    prefix, and after each prefix the advanced fold has the horizontal
    position of the simple fold and, as its aim, the depth of the simple
    fold. *)
Theorem folds_in_lock_step (lines : list string) :
  Forall known_instruction lines ->
  forall k : nat,
  exists horiz depth depth',
    reduce process_simple (firstn k lines) (0, 0) = ret (horiz, depth)
    /\ reduce process_advanced (firstn k lines) (0, 0, 0) = ret (horiz, depth', depth).
Proof.
  intros Hlines k.
  pose proof (Forall_firstn_known k _ Hlines) as Hk.
  pose proof (reduce_in_step (firstn k lines) 0 0 0) as Hstep.
  destruct (reduce_simple_known _ Hk (0, 0)) as [[horiz depth] Hs].
  destruct (reduce_advanced_known _ Hk (0, 0, 0)) as [[[horiz' depth'] aim'] Ha].
  rewrite Hs, Ha in Hstep; cbn [in_step ret] in Hstep.
  destruct Hstep as [-> ->].
  exists horiz, depth, depth'; split; assumption.
Qed.

Lemma folds_in_lock_step_witness :
  Forall known_instruction ["down 5"; "forward 8"]
  /\ exists horiz depth depth',
       reduce process_simple (firstn 2 ["down 5"; "forward 8"]) (0, 0)
       = ret (horiz, depth)
       /\ reduce process_advanced (firstn 2 ["down 5"; "forward 8"]) (0, 0, 0)
          = ret (horiz, depth', depth).
Proof.
  assert (H : Forall known_instruction ["down 5"; "forward 8"]).
  { repeat constructor.
    - exists "down", 5; split; reflexivity.
    - exists "forward", 8; split; reflexivity. }
  split; [exact H | exact (folds_in_lock_step _ H 2%nat)].
Defined.




End Day02Facts.
(* ===================================================================== *)
(** * Binary64 arithmetic on integers

  What [int / int] and the conversion of an [int] to a [float] return,
  read off the definitions of [SpecFloat]. *)
(* ===================================================================== *)

Section Binary64.

Local Abbreviation fexp := (SpecFloat.fexp prec emax).

Lemma fexp_eq (e : Z) : fexp e = Z.max (e - 53) (-1074).
Proof. reflexivity. Qed.

Lemma digits2_pos_size (p : positive) : digits2_pos p = Pos.size p.
Proof. induction p; simpl; congruence. Qed.

Lemma digits2_pos_log2 (p : positive) :
  Zpos (digits2_pos p) = Z.log2 (Zpos p) + 1.
Proof.
  rewrite digits2_pos_size; destruct p; simpl; lia.
Qed.

Lemma digits2_pos_bounds (p : positive) :
  2 ^ (Zpos (digits2_pos p) - 1) <= Zpos p < 2 ^ Zpos (digits2_pos p).
Proof.
  rewrite digits2_pos_log2.
  replace (Z.log2 (Zpos p) + 1 - 1) with (Z.log2 (Zpos p)) by lia.
  apply (Z.log2_spec (Zpos p)); lia.
Qed.

Lemma digits2_pos_unique (p : positive) (k : Z) :
  2 ^ (k - 1) <= Zpos p < 2 ^ k -> Zpos (digits2_pos p) = k.
Proof.
  intros [Hlo Hhi].
  assert (0 < k).
  { destruct (Z.ltb_spec 0 k) as [| Hk]; [assumption |].
    exfalso. assert (2 ^ k <= 2 ^ 0) by (apply Z.pow_le_mono_r; lia).
    simpl in *; lia. }
  rewrite digits2_pos_log2.
  rewrite (Z.log2_unique (Zpos p) (k - 1)); [lia | lia |].
  replace (Z.succ (k - 1)) with k by lia; auto.
Qed.

Lemma iter_xO (p k : positive) :
  Zpos (Pos.iter xO p k) = Zpos p * 2 ^ Zpos k.
Proof.
  induction k as [| k IH] using Pos.peano_ind.
  - simpl; lia.
  - rewrite Pos.iter_succ, Pos2Z.inj_succ, Z.pow_succ_r by lia.
    rewrite Pos2Z.inj_xO, IH; lia.
Qed.

Lemma shr_1_spec (m : Z) (r s : bool) :
  0 <= m ->
  shr_1 {| shr_m := m; shr_r := r; shr_s := s |}
  = {| shr_m := m / 2; shr_r := Z.odd m; shr_s := r || s |}.
Proof.
  intros Hm; rewrite <- Z.div2_div.
  destruct m as [| [p | p |] |]; try reflexivity; lia.
Qed.

Lemma iter_shr_1_m (n : positive) :
  forall mrs, 0 <= shr_m mrs ->
              shr_m (iter_pos shr_1 n mrs) = shr_m mrs / 2 ^ Zpos n.
Proof.
  assert (Hone : forall mrs, 0 <= shr_m mrs ->
                             shr_m (shr_1 mrs) = shr_m mrs / 2).
  { intros [m r s] Hm; simpl in Hm; rewrite (shr_1_spec _ _ _ Hm); reflexivity. }
  induction n as [n IH | n IH |]; intros mrs Hm; cbn [iter_pos].
  - assert (0 <= shr_m (shr_1 mrs))
      by (rewrite Hone by assumption; apply Z.div_pos; lia).
    assert (0 <= shr_m (iter_pos shr_1 n (shr_1 mrs)))
      by (rewrite IH by assumption; apply Z.div_pos; [lia | apply Z.pow_pos_nonneg; lia]).
    rewrite IH, IH, Hone by assumption.
    rewrite !Z.div_div by (try apply Z.pow_pos_nonneg; lia).
    f_equal. rewrite <- Z.pow_add_r, <- Z.pow_succ_r by lia; f_equal; lia.
  - assert (0 <= shr_m (iter_pos shr_1 n mrs))
      by (rewrite IH by assumption; apply Z.div_pos; [lia | apply Z.pow_pos_nonneg; lia]).
    rewrite IH, IH by assumption.
    rewrite !Z.div_div by (try apply Z.pow_pos_nonneg; lia).
    f_equal. rewrite <- Z.pow_add_r by lia; f_equal; lia.
  - rewrite Hone by assumption; reflexivity.
Qed.

Lemma binary_round_aux_finish (sx : bool) (mx ex : Z) (lx : location) :
  binary_round_aux prec emax sx mx ex lx
  = finish sx (round_nearest_even (shr_m (fst (shr_fexp prec emax mx ex lx)))
                                  (loc_of_shr_record (fst (shr_fexp prec emax mx ex lx))))
           (snd (shr_fexp prec emax mx ex lx)).
Proof.
  unfold binary_round_aux, finish.
  destruct (shr_fexp prec emax mx ex lx) as [mrs e]; reflexivity.
Qed.

Lemma finish_normal (sx : bool) (m : positive) (e : Z) :
  2 ^ 52 <= Zpos m < 2 ^ 53 -> -1074 <= e ->
  finish sx (Zpos m) e
  = if e <=? 971 then S754_finite sx m e else S754_infinity sx.
Proof.
  intros Hm He; unfold finish, shr_fexp.
  cbn [Zdigits2].
  rewrite (digits2_pos_unique m 53) by (simpl; lia).
  rewrite fexp_eq.
  replace (Z.max (53 + e - 53) (-1074) - e) with 0 by lia.
  reflexivity.
Qed.

Lemma finish_carry (sx : bool) (e : Z) :
  -1074 <= e ->
  finish sx (2 ^ 53) e
  = if e + 1 <=? 971 then S754_finite sx (Z.to_pos (2 ^ 52)) (e + 1)
    else S754_infinity sx.
Proof.
  intros He; unfold finish, shr_fexp.
  change (Zdigits2 (2 ^ 53)) with 54.
  rewrite fexp_eq.
  replace (Z.max (54 + e - 53) (-1074) - e) with 1 by lia.
  reflexivity.
Qed.

Lemma finish_spec (sx : bool) (m e : Z) :
  2 ^ 52 <= m <= 2 ^ 53 -> -1074 <= e ->
  finish sx m e = normal_result sx m e.
Proof.
  intros Hm He; unfold normal_result.
  destruct (Z.ltb_spec m (2 ^ 53)) as [Hlt | Hge].
  - destruct m as [| p | p]; try lia.
    rewrite finish_normal by lia; reflexivity.
  - replace m with (2 ^ 53) by lia; apply finish_carry; assumption.
Qed.

Lemma round_nearest_even_bounds (m : Z) (l : location) :
  m <= round_nearest_even m l <= m + 1.
Proof.
  destruct l as [| []]; simpl; try lia.
  destruct (Z.even m); lia.
Qed.

Lemma shr_fexp_none (m : positive) (e : Z) (l : location) :
  2 ^ 52 <= Zpos m < 2 ^ 53 -> -1074 <= e ->
  shr_fexp prec emax (Zpos m) e l = (shr_record_of_loc (Zpos m) l, e).
Proof.
  intros Hm He; unfold shr_fexp; cbn [Zdigits2].
  rewrite (digits2_pos_unique m 53) by (simpl; lia).
  rewrite fexp_eq.
  replace (Z.max (53 + e - 53) (-1074) - e) with 0 by lia.
  reflexivity.
Qed.

Lemma loc_of_shr_record_of_loc (m : Z) (l : location) :
  loc_of_shr_record (shr_record_of_loc m l) = l.
Proof. destruct l as [| []]; reflexivity. Qed.

Lemma shr_m_of_loc (m : Z) (l : location) :
  shr_m (shr_record_of_loc m l) = m.
Proof. destruct l as [| []]; reflexivity. Qed.

Lemma pow2_split (a b : Z) : 0 <= a -> 0 <= b -> 2 ^ (a + b) = 2 ^ a * 2 ^ b.
Proof. intros; apply Z.pow_add_r; assumption. Qed.

(** Rounding an integer: the result has the sign of the integer and is
    finite or infinite, and finite below [2 ^ 1023]. *)
Lemma binary_round_int (sx : bool) (p : positive) :
  exists m e,
    2 ^ 52 <= m <= 2 ^ 53 /\ -1074 <= e
    /\ (Zpos p < 2 ^ 1023 -> e + 1 <= 971)
    /\ binary_round prec emax sx p 0 = normal_result sx m e.
Proof.
  pose proof (digits2_pos_bounds p) as Hd.
  set (d := Zpos (digits2_pos p)) in *.
  assert (Hd1 : 1 <= d) by (unfold d; lia).
  assert (Hbig : Zpos p < 2 ^ 1023 -> d <= 1023).
  { intros Hp. destruct (Z.leb_spec d 1023) as [| Hgt]; [assumption |].
    exfalso. assert (2 ^ 1023 <= 2 ^ (d - 1)) by (apply Z.pow_le_mono_r; lia). lia. }
  unfold binary_round. fold d. rewrite fexp_eq.
  replace (Z.max (d + 0 - 53) (-1074)) with (d - 53) by lia.
  unfold shl_align.
  destruct (d - 53 - 0) as [| n | n] eqn:Hn.
  - (* exactly 53 digits *)
    assert (d = 53) by lia.
    assert (2 ^ 52 <= Zpos p < 2 ^ 53)
      by (replace 52 with (d - 1) by lia; replace 53 with d by lia; exact Hd).
    exists (Zpos p), 0; repeat split; try lia.
    rewrite binary_round_aux_finish, shr_fexp_none by lia.
    cbn [fst snd].
    rewrite loc_of_shr_record_of_loc, shr_m_of_loc; cbn [round_nearest_even].
    apply finish_spec; lia.
  - (* more than 53 digits: the low bits are shifted out *)
    assert (Hdn : d - 53 = Zpos n) by lia.
    rewrite binary_round_aux_finish.
    unfold shr_fexp at 1 2 3. cbn [Zdigits2]. fold d. rewrite fexp_eq.
    replace (Z.max (d + 0 - 53) (-1074) - 0) with (Zpos n) by lia.
    cbn [shr fst snd shr_record_of_loc].
    set (mrs := iter_pos shr_1 n _).
    assert (Hm : shr_m mrs = Zpos p / 2 ^ Zpos n)
      by (unfold mrs; rewrite iter_shr_1_m; simpl; [reflexivity | lia]).
    assert (Hp : 0 < 2 ^ Zpos n) by (apply Z.pow_pos_nonneg; lia).
    assert (Hrange : 2 ^ 52 <= shr_m mrs < 2 ^ 53).
    { rewrite Hm.
      assert (H1 : 2 ^ (d - 1) = 2 ^ 52 * 2 ^ Zpos n)
        by (rewrite <- pow2_split by lia; f_equal; lia).
      assert (H2 : 2 ^ d = 2 ^ 53 * 2 ^ Zpos n)
        by (rewrite <- pow2_split by lia; f_equal; lia).
      split.
      - apply Z.div_le_lower_bound; [lia |]. lia.
      - apply Z.div_lt_upper_bound; [lia |]. lia. }
    pose proof (round_nearest_even_bounds (shr_m mrs) (loc_of_shr_record mrs)).
    eexists _, (0 + Zpos n); repeat split;
      [| | | | apply finish_spec]; lia.
  - (* fewer than 53 digits: the mantissa is shifted left, exactly *)
    assert (Hdn : 53 - d = Zpos n) by lia.
    assert (Hm : 2 ^ 52 <= Zpos (Pos.iter xO p n) < 2 ^ 53).
    { rewrite iter_xO.
      assert (H1 : 2 ^ 52 = 2 ^ (d - 1) * 2 ^ Zpos n)
        by (rewrite <- pow2_split by lia; f_equal; lia).
      assert (H2 : 2 ^ 53 = 2 ^ d * 2 ^ Zpos n)
        by (rewrite <- pow2_split by lia; f_equal; lia).
      assert (Hp : 0 < 2 ^ Zpos n) by (apply Z.pow_pos_nonneg; lia).
      rewrite H1, H2; split; nia. }
    exists (Zpos (Pos.iter xO p n)), (d - 53); repeat split; try lia.
    rewrite binary_round_aux_finish, shr_fexp_none by lia.
    cbn [fst snd].
    rewrite loc_of_shr_record_of_loc, shr_m_of_loc; cbn [round_nearest_even].
    apply finish_spec; lia.
Qed.

(** The position of a remainder [r] of a division by [w] with respect to
    the half of [w]. *)
Lemma new_location_spec (w r : Z) :
  0 < w -> 0 <= r < w ->
  new_location w r = if r =? 0 then loc_Exact else loc_Inexact (2 * r ?= w).
Proof.
  intros Hw Hr; unfold new_location.
  destruct (Z.even w) eqn:Hev; [reflexivity |].
  unfold new_location_odd; destruct (r =? 0); [reflexivity |]; f_equal.
  assert (Hodd : Z.odd w = true) by (rewrite <- Z.negb_even, Hev; reflexivity).
  apply Z.odd_spec in Hodd; destruct Hodd as [k Hk].
  destruct (Z.compare_spec (2 * r + 1) w), (Z.compare_spec (2 * r) w);
    try reflexivity; lia.
Qed.

(** Rounding a quotient of 53 bits. *)
Lemma round_quotient_53 (q r w : Z) :
  0 < w -> 0 <= r < w ->
  let m := round_nearest_even q (remainder_location w r) in
  q <= m <= q + 1 /\ 2 * Z.abs (m * w - (w * q + r)) <= w.
Proof.
  intros Hw Hr; unfold remainder_location.
  destruct (Z.eqb_spec r 0) as [-> | Hr0]; cbn [round_nearest_even]; [lia |].
  destruct (Z.compare_spec (2 * r) w); cbn [round_nearest_even];
    [destruct (Z.even q) |..]; nia.
Qed.

(** Rounding a quotient of 54 bits: its last bit is shifted out first. *)
Lemma round_quotient_54 (q r w : Z) :
  0 <= q -> 0 < w -> 0 <= r < w ->
  let mrs := shr_1 (shr_record_of_loc q (remainder_location w r)) in
  let m := round_nearest_even (shr_m mrs) (loc_of_shr_record mrs) in
  q / 2 <= m <= q / 2 + 1
  /\ Z.abs (2 * m * w - (w * q + r)) <= w
  /\ (r = 0 -> Z.even q = true -> 2 * m = q).
Proof.
  intros Hq Hw Hr.
  pose proof (Z.div2_odd q) as Hdiv; rewrite Z.div2_div in Hdiv.
  assert (Heven : Z.even q = negb (Z.odd q)) by (rewrite Z.negb_odd; reflexivity).
  unfold remainder_location.
  destruct (Z.eqb_spec r 0) as [-> | Hr0];
    [| destruct (Z.compare_spec (2 * r) w)];
    cbn [shr_record_of_loc]; rewrite (shr_1_spec _ _ _ Hq);
    cbn [shr_m loc_of_shr_record orb]; rewrite Heven;
    destruct (Z.odd q); cbn [Z.b2z negb] in *;
    cbn [round_nearest_even loc_of_shr_record];
    try (destruct (Z.even (q / 2))); repeat split; try discriminate; nia.
Qed.

Lemma SFdiv_core_int (pa pw : positive) (S : Z) :
  S = 53 + Zpos (digits2_pos pw) - Zpos (digits2_pos pa) ->
  0 <= S <= 1074 ->
  SFdiv_core_binary prec emax (Zpos pa) 0 (Zpos pw) 0
  = ((Zpos pa * 2 ^ S) / Zpos pw, - S,
     new_location (Zpos pw) ((Zpos pa * 2 ^ S) mod Zpos pw)).
Proof.
  intros HS Hrange; unfold SFdiv_core_binary; cbn [Zdigits2].
  rewrite fexp_eq.
  replace (Z.min (Z.max (Zpos (digits2_pos pa) + 0 - (Zpos (digits2_pos pw) + 0) - 53)
                        (-1074)) (0 - 0))
    with (- S) by lia.
  replace (0 - 0 - - S) with S by lia.
  assert (Hm : match S with
               | Zpos _ => Z.shiftl (Zpos pa) S
               | Z0 => Zpos pa
               | Zneg _ => 0
               end = Zpos pa * 2 ^ S).
  { destruct S as [| s | s]; [simpl; lia | | lia].
    apply Z.shiftl_mul_pow2; lia. }
  rewrite Hm; unfold Z.div, Z.modulo.
  destruct (Z.div_eucl (Zpos pa * 2 ^ S) (Zpos pw)); reflexivity.
Qed.

Lemma scaled_carry (e : Z) :
  -1074 <= e -> scaled (2 ^ 52) (e + 1) = scaled (2 ^ 53) e.
Proof.
  intros He; unfold scaled.
  replace (e + 1 + 1074) with (Z.succ (e + 1074)) by lia.
  rewrite Z.pow_succ_r by lia.
  change (2 ^ 53) with (2 ^ 52 * 2); ring.
Qed.

Lemma normal_result_scaled (sx : bool) (m1 e0 : Z) :
  2 ^ 52 <= m1 <= 2 ^ 53 -> -1074 <= e0 -> e0 + 1 <= 971 ->
  exists m e,
    normal_result sx m1 e0 = S754_finite sx m e
    /\ 2 ^ 52 <= Zpos m < 2 ^ 53 /\ e0 <= e <= e0 + 1
    /\ scaled (Zpos m) e = scaled m1 e0.
Proof.
  intros Hm Hlo Hhi; unfold normal_result.
  destruct (Z.ltb_spec m1 (2 ^ 53)) as [Hm1 | Hm1].
  - replace (e0 <=? 971) with true by (symmetry; apply Z.leb_le; lia).
    exists (Z.to_pos m1), e0; rewrite Z2Pos.id by lia.
    repeat split; lia.
  - replace (e0 + 1 <=? 971) with true by (symmetry; apply Z.leb_le; lia).
    exists (Z.to_pos (2 ^ 52)), (e0 + 1); rewrite Z2Pos.id by lia.
    replace m1 with (2 ^ 53) by lia.
    repeat split; try lia. apply scaled_carry; assumption.
Qed.

Lemma scale_error (U t w : Z) :
  0 < U -> 2 * Z.abs t <= w -> 2 * Z.abs (U * t) <= w * U.
Proof. intros HU Ht; rewrite Z.abs_mul, (Z.abs_eq U) by lia; nia. Qed.

Lemma scale_error_2 (U t w : Z) :
  0 < U -> Z.abs t <= w -> 2 * Z.abs (U * t) <= w * (2 * U).
Proof. intros HU Ht; rewrite Z.abs_mul, (Z.abs_eq U) by lia; nia. Qed.

Lemma quotient_range (X w q r A B : Z) :
  X = w * q + r -> 0 <= r < w ->
  2 ^ 52 * B <= X -> X < 2 ^ 54 * A -> 0 < A <= w -> w < B ->
  2 ^ 52 <= q < 2 ^ 54.
Proof. intros; split; nia. Qed.

(** The quotient of two positive integers, rounded: the result is a
    normal number within half a unit in the last place of the exact
    quotient; [U] is that unit.  A division by one is exact up to
    [2 ^ 53]. *)
Lemma SFdiv_int (sx : bool) (pa pw : positive) :
  Zpos pa < 2 ^ 54 -> Zpos pw < 2 ^ 1022 ->
  exists m e U,
    SFdiv prec emax (S754_finite sx pa 0) (S754_finite false pw 0)
    = S754_finite sx m e
    /\ 2 ^ 52 <= Zpos m < 2 ^ 53 /\ -1074 <= e <= 971
    /\ 0 < U /\ U * 2 ^ 52 <= scaled (Zpos m) e
    /\ 2 * Z.abs (scaled (Zpos m) e * Zpos pw - Zpos pa * 2 ^ 1074) <= Zpos pw * U
    /\ (Zpos pw = 1 -> Zpos pa <= 2 ^ 53 ->
        scaled (Zpos m) e = Zpos pa * 2 ^ 1074).
Proof.
  intros Ha Hw.
  pose proof (digits2_pos_bounds pa) as Hd1.
  pose proof (digits2_pos_bounds pw) as Hd2.
  set (d1 := Zpos (digits2_pos pa)) in *.
  set (d2 := Zpos (digits2_pos pw)) in *.
  assert (Hd1' : 1 <= d1 <= 54).
  { split; [unfold d1; lia |].
    destruct (Z.leb_spec d1 54) as [| Hgt]; [assumption | exfalso].
    assert (2 ^ 54 <= 2 ^ (d1 - 1)) by (apply Z.pow_le_mono_r; lia). lia. }
  assert (Hd2' : 1 <= d2 <= 1022).
  { split; [unfold d2; lia |].
    destruct (Z.leb_spec d2 1022) as [| Hgt]; [assumption | exfalso].
    assert (2 ^ 1022 <= 2 ^ (d2 - 1)) by (apply Z.pow_le_mono_r; lia). lia. }
  set (S := 53 + d2 - d1).
  assert (HS : 0 <= S <= 1074) by (unfold S; lia).
  set (w := Zpos pw) in *. set (a := Zpos pa) in *.
  set (X := a * 2 ^ S).
  assert (Hw0 : 0 < w) by (unfold w; lia).
  pose proof (Z.div_mod X w ltac:(lia)) as Hdiv.
  pose proof (Z.mod_pos_bound X w Hw0) as Hr.
  set (q := X / w) in *. set (r := X mod w) in *.
  set (U0 := 2 ^ (1074 - S)).
  assert (HU0 : 0 < U0) by (apply Z.pow_pos_nonneg; lia).
  assert (HaC : a * 2 ^ 1074 = (w * q + r) * U0).
  { rewrite <- Hdiv; unfold X, U0.
    rewrite <- Z.mul_assoc, <- pow2_split by lia; do 2 f_equal; lia. }
  assert (HS0 : 0 < 2 ^ S) by (apply Z.pow_pos_nonneg; lia).
  assert (HA : 0 < 2 ^ (d2 - 1)) by (apply Z.pow_pos_nonneg; lia).
  assert (HXlo : 2 ^ 52 * 2 ^ d2 <= X).
  { unfold X. replace (2 ^ 52 * 2 ^ d2) with (2 ^ (d1 - 1) * 2 ^ S).
    - apply Z.mul_le_mono_nonneg_r; lia.
    - rewrite <- !pow2_split by lia; f_equal; unfold S; lia. }
  assert (HXhi : X < 2 ^ 54 * 2 ^ (d2 - 1)).
  { unfold X. replace (2 ^ 54 * 2 ^ (d2 - 1)) with (2 ^ d1 * 2 ^ S).
    - apply Z.mul_lt_mono_pos_r; lia.
    - rewrite <- !pow2_split by lia; f_equal; unfold S; lia. }
  assert (Hq : 2 ^ 52 <= q < 2 ^ 54)
    by (apply (quotient_range X w q r (2 ^ (d2 - 1)) (2 ^ d2)); lia).
  assert (Hone : w = 1 -> a <= 2 ^ 53 -> 2 ^ 53 <= q /\ r = 0 /\ Z.even q = true).
  { intros Hw1 Ha53.
    assert (Hd21 : 2 ^ 1 <= 2 ^ d2) by (apply Z.pow_le_mono_r; lia).
    assert (Hr0 : r = 0) by lia.
    assert (HqX : q = X) by lia.
    repeat split; [change (2 ^ 1) with 2 in Hd21; lia | assumption |].
    rewrite HqX; unfold X. destruct (Z.eqb_spec S 0) as [HS' | HS'].
    - assert (d1 = 54) by (unfold S in HS'; lia).
      assert (2 ^ (d1 - 1) = 2 ^ 53) by (f_equal; lia).
      assert (Ha' : a = 2 ^ 53) by lia.
      rewrite HS', Ha'; reflexivity.
    - replace S with (Z.succ (S - 1)) by lia.
      rewrite Z.pow_succ_r by lia.
      replace (a * (2 * 2 ^ (S - 1))) with (2 * (a * 2 ^ (S - 1))) by ring.
      apply Z.even_spec; eexists; reflexivity. }
  unfold SFdiv.
  rewrite (SFdiv_core_int pa pw S eq_refl HS).
  fold a w X q r.
  rewrite new_location_spec by assumption.
  fold (remainder_location w r).
  rewrite binary_round_aux_finish, xorb_false_r.
  destruct (Z.ltb_spec q (2 ^ 53)) as [Hq53 | Hq54].
  - (* 53 bits: rounded as it is *)
    destruct q as [| pq | pq] eqn:Eq; try lia.
    rewrite shr_fexp_none by lia; cbn [fst snd].
    rewrite loc_of_shr_record_of_loc, shr_m_of_loc.
    destruct (round_quotient_53 (Zpos pq) r w Hw0 Hr) as [Hm Herr].
    set (m1 := round_nearest_even (Zpos pq) (remainder_location w r)) in *.
    rewrite finish_spec by lia.
    destruct (normal_result_scaled sx m1 (- S)) as (m & e & -> & Hmr & He & HV);
      try lia.
    assert (HV' : scaled (Zpos m) e = m1 * U0)
      by (rewrite HV; unfold scaled, U0; do 2 f_equal; lia).
    exists m, e, U0; rewrite HV', HaC.
    split; [reflexivity |].
    split; [assumption |].
    split; [lia |].
    split; [assumption |].
    split; [rewrite (Z.mul_comm U0); apply Z.mul_le_mono_nonneg_r; lia |].
    split.
    + replace (m1 * U0 * w - (w * Zpos pq + r) * U0)
        with (U0 * (m1 * w - (w * Zpos pq + r))) by ring.
      apply scale_error; assumption.
    + intros Hw1 Ha53; destruct (Hone Hw1 Ha53) as [Hcontra _]; lia.
  - (* 54 bits: the last bit is shifted out *)
    assert (Hshr : shr_fexp prec emax q (- S) (remainder_location w r)
                   = (shr_1 (shr_record_of_loc q (remainder_location w r)), - S + 1)).
    { unfold shr_fexp. destruct q as [| pq | pq]; try lia. cbn [Zdigits2].
      rewrite (digits2_pos_unique pq 54) by (simpl; lia).
      rewrite fexp_eq.
      replace (Z.max (54 + - S - 53) (-1074) - - S) with 1 by lia.
      reflexivity. }
    rewrite Hshr; cbn [fst snd].
    destruct (round_quotient_54 q r w ltac:(lia) Hw0 Hr) as (Hm & Herr & Hexact).
    set (mrs := shr_1 _) in *.
    set (m1 := round_nearest_even (shr_m mrs) (loc_of_shr_record mrs)) in *.
    assert (Hq2 : 2 ^ 52 <= q / 2 < 2 ^ 53).
    { split; [apply Z.div_le_lower_bound | apply Z.div_lt_upper_bound]; lia. }
    rewrite finish_spec by lia.
    destruct (normal_result_scaled sx m1 (- S + 1)) as (m & e & -> & Hmr & He & HV);
      try lia.
    assert (HV' : scaled (Zpos m) e = m1 * (2 * U0)).
    { rewrite HV; unfold scaled, U0; f_equal.
      replace (- S + 1 + 1074) with (Z.succ (1074 - S)) by lia.
      apply Z.pow_succ_r; lia. }
    exists m, e, (2 * U0); rewrite HV', HaC.
    split; [reflexivity |].
    split; [assumption |].
    split; [lia |].
    split; [lia |].
    split; [rewrite (Z.mul_comm (2 * U0)); apply Z.mul_le_mono_nonneg_r; lia |].
    split.
    + replace (m1 * (2 * U0) * w - (w * q + r) * U0)
        with (U0 * (2 * m1 * w - (w * q + r))) by ring.
      apply scale_error_2; assumption.
    + intros Hw1 Ha53; destruct (Hone Hw1 Ha53) as (_ & Hr0 & Hev).
      specialize (Hexact Hr0 Hev).
      rewrite Hr0, Hw1, <- Hexact; ring.
Qed.

Lemma scaled_pos (m e : Z) : 0 < m -> -1074 <= e -> 0 < scaled m e.
Proof.
  intros Hm He; unfold scaled; apply Z.mul_pos_pos; [assumption |].
  apply Z.pow_pos_nonneg; lia.
Qed.

Lemma scaled_lt_exp (m1 m2 e1 e2 : Z) :
  0 < m1 < 2 ^ 53 -> 2 ^ 52 <= m2 -> -1074 <= e1 < e2 ->
  scaled m1 e1 < scaled m2 e2.
Proof.
  intros Hm1 Hm2 He; unfold scaled.
  replace (e2 + 1074) with ((e2 - e1 - 1) + Z.succ (e1 + 1074)) by lia.
  rewrite (pow2_split (e2 - e1 - 1) (Z.succ (e1 + 1074))), Z.pow_succ_r by lia.
  assert (0 < 2 ^ (e1 + 1074)) by (apply Z.pow_pos_nonneg; lia).
  assert (0 < 2 ^ (e2 - e1 - 1)) by (apply Z.pow_pos_nonneg; lia).
  set (P := 2 ^ (e1 + 1074)) in *. set (Q := 2 ^ (e2 - e1 - 1)) in *.
  assert (m1 * P < 2 ^ 53 * P) by (apply Z.mul_lt_mono_pos_r; lia).
  assert (2 ^ 52 * 1 <= m2 * Q) by (apply Z.mul_le_mono_nonneg; lia).
  replace (m2 * (Q * (2 * P))) with (m2 * Q * 2 * P) by ring.
  assert (2 ^ 52 * 1 * 2 * P <= m2 * Q * 2 * P)
    by (apply Z.mul_le_mono_nonneg_r; lia).
  lia.
Qed.

Lemma SFltb_sval (f g : float) :
  normal_or_zero f -> normal_or_zero g ->
  SFltb f g = (sval f <? sval g).
Proof.
  destruct f as [sf | sf | | sf mf ef], g as [sg | sg | | sg mg eg];
    cbn [normal_or_zero]; try contradiction; intros Hf Hg;
    unfold SFltb; cbn [SFcompare sval].
  - reflexivity.
  - destruct Hg as [Hm He].
    pose proof (scaled_pos (Zpos mg) eg ltac:(lia) He).
    destruct sg; symmetry; [apply Z.ltb_ge | apply Z.ltb_lt]; lia.
  - destruct Hf as [Hm He].
    pose proof (scaled_pos (Zpos mf) ef ltac:(lia) He).
    destruct sf; symmetry; [apply Z.ltb_lt | apply Z.ltb_ge]; lia.
  - destruct Hf as [Hmf Hef], Hg as [Hmg Heg].
    pose proof (scaled_pos (Zpos mf) ef ltac:(lia) Hef).
    pose proof (scaled_pos (Zpos mg) eg ltac:(lia) Heg).
    destruct (Z.compare_spec ef eg) as [-> | Hlt | Hgt].
    + change (Pos.compare_cont Eq mf mg) with (Zpos mf ?= Zpos mg).
      assert (HP : 0 < 2 ^ (eg + 1074)) by (apply Z.pow_pos_nonneg; lia).
      unfold scaled in *.
      destruct (Z.compare_spec (Zpos mf) (Zpos mg)) as [Heq | Hlt | Hgt];
        [rewrite Heq | |]; destruct sf, sg; cbn [CompOpp]; symmetry;
        first [apply Z.ltb_lt; nia | apply Z.ltb_ge; nia].
    + pose proof (scaled_lt_exp (Zpos mf) (Zpos mg) ef eg ltac:(lia) ltac:(lia) ltac:(lia)).
      destruct sf, sg; symmetry; first [apply Z.ltb_lt; lia | apply Z.ltb_ge; lia].
    + pose proof (scaled_lt_exp (Zpos mg) (Zpos mf) eg ef ltac:(lia) ltac:(lia) ltac:(lia)).
      destruct sf, sg; symmetry; first [apply Z.ltb_lt; lia | apply Z.ltb_ge; lia].
Qed.

(** [a / w] on integers, in the range where the quotient is a normal
    number: the result and its distance to the exact quotient. *)
Lemma int_truediv_spec (a w : Z) :
  Z.abs a < 2 ^ 54 -> 0 < w < 2 ^ 1022 ->
  exists f U,
    int_truediv a w = ret f /\ normal_or_zero f
    /\ 0 <= U /\ U * 2 ^ 52 <= Z.abs (sval f)
    /\ 2 * Z.abs (sval f * w - a * 2 ^ 1074) <= w * U
    /\ (w = 1 -> Z.abs a <= 2 ^ 53 -> sval f = a * 2 ^ 1074).
Proof.
  intros Ha Hw; unfold int_truediv.
  destruct (Z.eqb_spec w 0) as [| _]; [lia |].
  destruct w as [| pw | pw]; try lia.
  destruct a as [| pa | pa]; cbn [exact_of_int].
  - exists (S754_zero false), 0; cbn [SFdiv xorb sval normal_or_zero].
    repeat split; lia.
  - destruct (SFdiv_int false pa pw) as (m & e & U & -> & Hm & He & HU & HUV & Herr & Hex);
      try lia.
    pose proof (scaled_pos (Zpos m) e ltac:(lia) ltac:(lia)).
    exists (S754_finite false m e), U; cbn [sval normal_or_zero].
    rewrite (Z.abs_eq (scaled _ _)) by lia.
    repeat split; try lia; assumption.
  - destruct (SFdiv_int true pa pw) as (m & e & U & -> & Hm & He & HU & HUV & Herr & Hex);
      try lia.
    pose proof (scaled_pos (Zpos m) e ltac:(lia) ltac:(lia)).
    exists (S754_finite true m e), U; cbn [sval normal_or_zero].
    rewrite Z.abs_opp, (Z.abs_eq (scaled _ _)) by lia.
    repeat split; try lia; assumption.
Qed.

(** Two quotients whose numerators differ are rounded to different
    values as long as the numerators stay below [2 ^ 52]. *)
Lemma separation (x1 x2 y1 y2 z1 z2 C : Z) :
  0 < C -> 0 <= y1 -> 0 <= y2 ->
  y1 * 2 ^ 52 <= Z.abs x1 -> y2 * 2 ^ 52 <= Z.abs x2 ->
  2 * Z.abs (x1 - z1) <= y1 -> 2 * Z.abs (x2 - z2) <= y2 ->
  Z.abs z1 <= (2 ^ 52 - 1) * C -> Z.abs z2 <= (2 ^ 52 - 1) * C ->
  z1 + C <= z2 ->
  x1 < x2.
Proof. lia. Qed.

Lemma int_truediv_lt (a1 a2 w : Z) :
  Z.abs a1 < 2 ^ 52 -> Z.abs a2 < 2 ^ 52 -> 0 < w < 2 ^ 1022 -> a1 < a2 ->
  exists f1 f2,
    int_truediv a1 w = ret f1 /\ int_truediv a2 w = ret f2
    /\ normal_or_zero f1 /\ normal_or_zero f2 /\ sval f1 < sval f2.
Proof.
  intros Ha1 Ha2 Hw Hlt.
  destruct (int_truediv_spec a1 w) as (f1 & U1 & E1 & N1 & HU1 & HV1 & Herr1 & _);
    try lia.
  destruct (int_truediv_spec a2 w) as (f2 & U2 & E2 & N2 & HU2 & HV2 & Herr2 & _);
    try lia.
  exists f1, f2; repeat split; try assumption.
  assert (HC : 0 < 2 ^ 1074) by (apply Z.pow_pos_nonneg; lia).
  set (C := 2 ^ 1074) in *.
  apply (Z.mul_lt_mono_pos_r w); [lia |].
  apply (separation _ _ (w * U1) (w * U2) (a1 * C) (a2 * C) C); try assumption.
  - apply Z.mul_nonneg_nonneg; lia.
  - apply Z.mul_nonneg_nonneg; lia.
  - rewrite Z.abs_mul, (Z.abs_eq w) by lia.
    rewrite (Z.mul_comm w), <- Z.mul_assoc, (Z.mul_comm w), Z.mul_assoc.
    apply Z.mul_le_mono_nonneg_r; lia.
  - rewrite Z.abs_mul, (Z.abs_eq w) by lia.
    rewrite (Z.mul_comm w), <- Z.mul_assoc, (Z.mul_comm w), Z.mul_assoc.
    apply Z.mul_le_mono_nonneg_r; lia.
  - rewrite Z.abs_mul, (Z.abs_eq C) by lia.
    apply Z.mul_le_mono_nonneg_r; lia.
  - rewrite Z.abs_mul, (Z.abs_eq C) by lia.
    apply Z.mul_le_mono_nonneg_r; lia.
  - replace (a1 * C + C) with ((a1 + 1) * C) by ring.
    apply Z.mul_le_mono_nonneg_r; lia.
Qed.

Lemma int_truediv_normal (a w : Z) :
  Z.abs a < 2 ^ 54 -> 0 < w < 2 ^ 1022 ->
  exists f, int_truediv a w = ret f /\ normal_or_zero f.
Proof.
  intros Ha Hw.
  destruct (int_truediv_spec a w Ha Hw) as (f & U & E & N & _).
  exists f; split; assumption.
Qed.

(** Below [2 ^ 52] the float comparison of two averages is the
    comparison of the two sums. *)
Lemma int_truediv_gt (a1 a2 w : Z) :
  Z.abs a1 < 2 ^ 52 -> Z.abs a2 < 2 ^ 52 -> 0 < w < 2 ^ 1022 ->
  exists f1 f2,
    int_truediv a1 w = ret f1 /\ int_truediv a2 w = ret f2
    /\ normal_or_zero f1 /\ normal_or_zero f2
    /\ float_gt f2 f1 = (a1 <? a2).
Proof.
  intros Ha1 Ha2 Hw; unfold float_gt.
  destruct (Z.compare_spec a1 a2) as [Heq | Hlt | Hgt].
  - subst a2.
    destruct (int_truediv_normal a1 w) as (f & E & N); try lia.
    exists f, f; repeat split; try assumption.
    rewrite SFltb_sval by assumption.
    rewrite !Z.ltb_irrefl; reflexivity.
  - destruct (int_truediv_lt a1 a2 w) as (f1 & f2 & E1 & E2 & N1 & N2 & Hv);
      try assumption.
    exists f1, f2; repeat split; try assumption.
    rewrite SFltb_sval by assumption.
    transitivity true; [apply Z.ltb_lt | symmetry; apply Z.ltb_lt]; assumption.
  - destruct (int_truediv_lt a2 a1 w) as (f2 & f1 & E2 & E1 & N2 & N1 & Hv);
      try assumption.
    exists f1, f2; repeat split; try assumption.
    rewrite SFltb_sval by assumption.
    transitivity false; [apply Z.ltb_ge | symmetry; apply Z.ltb_ge]; lia.
Qed.

(** With a window of one measurement the average is the measurement
    itself, exactly, up to [2 ^ 53]. *)
Lemma int_truediv_one_gt (a1 a2 : Z) :
  Z.abs a1 <= 2 ^ 53 -> Z.abs a2 <= 2 ^ 53 ->
  exists f1 f2,
    int_truediv a1 1 = ret f1 /\ int_truediv a2 1 = ret f2
    /\ normal_or_zero f1 /\ normal_or_zero f2
    /\ float_gt f2 f1 = (a1 <? a2).
Proof.
  intros Ha1 Ha2; unfold float_gt.
  destruct (int_truediv_spec a1 1) as (f1 & U1 & E1 & N1 & _ & _ & _ & Hv1);
    try lia.
  destruct (int_truediv_spec a2 1) as (f2 & U2 & E2 & N2 & _ & _ & _ & Hv2);
    try lia.
  exists f1, f2; repeat split; try assumption.
  rewrite SFltb_sval, Hv1, Hv2 by (assumption || lia).
  assert (HC : 0 < 2 ^ 1074) by (apply Z.pow_pos_nonneg; lia).
  set (C := 2 ^ 1074) in *.
  destruct (Z.ltb_spec a1 a2); [apply Z.ltb_lt | apply Z.ltb_ge]; nia.
Qed.

End Binary64.
(* ===================================================================== *)
(** * Day 1: the sentinel, the fold and the count *)
(* ===================================================================== *)

Section Conversion.

Lemma float_gt_inf (x : float) : float_gt x inf = false.
Proof. destruct x as [s | [] | | [] m e]; reflexivity. Qed.

Lemma float_gt_nan (x : float) : float_gt x S754_nan = false.
Proof. reflexivity. Qed.

Lemma normal_result_class (sx : bool) (m e : Z) :
  (exists m' e', normal_result sx m e = S754_finite sx m' e')
  \/ normal_result sx m e = S754_infinity sx.
Proof.
  unfold normal_result.
  destruct (m <? 2 ^ 53); [destruct (e <=? 971) | destruct (e + 1 <=? 971)]; eauto.
Qed.

(** A converted integer is a zero or a finite number of the same sign. *)
Lemma float_of_int_class (z : Z) (f : float) :
  float_of_int z = ret f ->
  (z = 0 /\ f = S754_zero false)
  \/ (z <> 0 /\ exists m e, f = S754_finite (z <? 0) m e).
Proof.
  unfold float_of_int; destruct z as [| p | p]; cbn [binary_normalize].
  - intros [= <-]; left; split; reflexivity.
  - destruct (binary_round_int false p) as (m & e & _ & _ & _ & ->).
    destruct (normal_result_class false m e) as [(m' & e' & ->) | ->];
      [| discriminate].
    intros [= <-]; right; split; [lia | eauto].
  - destruct (binary_round_int true p) as (m & e & _ & _ & _ & ->).
    destruct (normal_result_class true m e) as [(m' & e' & ->) | ->];
      [| discriminate].
    intros [= <-]; right; split; [lia | eauto].
Qed.

Lemma fits_float_ret (z : Z) :
  fits_float z = true -> exists f, float_of_int z = ret f.
Proof.
  unfold fits_float; destruct (float_of_int z) as [e | f]; [discriminate | eauto].
Qed.

(** Integers below [2 ^ 1023] in magnitude convert. *)
Lemma fits_float_below (z : Z) : Z.abs z < 2 ^ 1023 -> fits_float z = true.
Proof.
  intros Hz; unfold fits_float, float_of_int.
  destruct z as [| p | p]; cbn [binary_normalize]; [reflexivity | |].
  - destruct (binary_round_int false p) as (m & e & Hm & He & Hfin & ->).
    unfold normal_result.
    destruct (m <? 2 ^ 53);
      [replace (e <=? 971) with true | replace (e + 1 <=? 971) with true];
      try reflexivity; symmetry; apply Z.leb_le; lia.
  - destruct (binary_round_int true p) as (m & e & Hm & He & Hfin & ->).
    unfold normal_result.
    destruct (m <? 2 ^ 53);
      [replace (e <=? 971) with true | replace (e + 1 <=? 971) with true];
      try reflexivity; symmetry; apply Z.leb_le; lia.
Qed.

End Conversion.

(** ** Windows that hold a sentinel *)

Section Sentinel.

Variable window_size : Z.
Variable verbose : bool.
Hypothesis window_size_pos : 0 < window_size.
Hypothesis fits_window_size : fits_float window_size = true.

Lemma usable_inf : usable verbose (PyFloat inf) = true.
Proof. destruct verbose; reflexivity. Qed.

Lemma usable_ints (zs : list Z) :
  Forall (fun z => fits_float z = true) zs ->
  Forall (fun x => usable verbose x = true) (map PyInt zs).
Proof. induction 1; cbn [map]; constructor; assumption. Qed.

Lemma add_sentinel (f : float) (y : number) :
  sentinel_sum verbose f -> usable verbose y = true ->
  exists f', add (PyFloat f) y = ret (PyFloat f') /\ sentinel_sum verbose f'.
Proof.
  intros Hf Hy; destruct y as [z | g]; cbn [usable] in Hy.
  - destruct (fits_float_ret z Hy) as [g Hg].
    cbn [add]; rewrite Hg; cbn [bind ret].
    exists f; split; [| assumption].
    destruct (float_of_int_class z g Hg) as [[_ ->] | [_ (m & e & ->)]];
      destruct Hf as [-> | [_ ->]]; reflexivity.
  - cbn [add ret]; unfold sentinel_sum in *.
    destruct Hf as [-> | [Hv ->]].
    + destruct verbose; cbn [negb orb] in Hy.
      * exists inf; split; [| left; reflexivity].
        destruct g as [s | [] | | s m e]; try discriminate; reflexivity.
      * destruct g as [s | [] | | s m e]; eexists; (split; [reflexivity |]); auto.
    + exists S754_nan; split; [reflexivity | right; auto].
Qed.

Lemma sum_from_sentinel (l : list number) :
  Forall (fun x => usable verbose x = true) l ->
  forall f, sentinel_sum verbose f ->
            exists f', sum_from (PyFloat f) l = ret (PyFloat f')
                       /\ sentinel_sum verbose f'.
Proof.
  induction 1 as [| x l Hx _ IH]; intros f Hf; cbn [sum_from].
  - exists f; split; [reflexivity | assumption].
  - destruct (add_sentinel f x Hf Hx) as (f1 & -> & Hf1); cbn [bind ret].
    apply IH, Hf1.
Qed.

(** The sum of a window that starts with a sentinel. *)
Lemma sum_sentinel (j : nat) (l : list number) :
  Forall (fun x => usable verbose x = true) l ->
  exists f, sum (repeat (PyFloat inf) (S j) ++ l) = ret (PyFloat f)
            /\ sentinel_sum verbose f.
Proof.
  intros Hl; unfold sum; cbn [repeat app sum_from].
  change (add (PyInt 0) (PyFloat inf)) with (@ret number (PyFloat inf)).
  cbn [bind ret]; apply sum_from_sentinel; [| left; reflexivity].
  apply Forall_app; split; [| assumption].
  apply Forall_forall; intros x Hx; apply repeat_spec in Hx; subst x.
  apply usable_inf.
Qed.

Lemma truediv_sentinel (f : float) :
  sentinel_sum verbose f ->
  exists f', truediv (PyFloat f) (PyInt window_size) = ret f'
             /\ sentinel_sum verbose f'.
Proof.
  intros Hf; destruct (fits_float_ret _ fits_window_size) as [g Hg].
  cbn [truediv]; rewrite Hg; cbn [bind ret].
  destruct (float_of_int_class _ g Hg) as [[Hz _] | [_ (m & e & ->)]]; [lia |].
  replace (window_size <? 0) with false by (symmetry; apply Z.ltb_ge; lia).
  destruct Hf as [-> | [Hv ->]]; eexists; (split; [reflexivity |]);
    [left | right; split]; auto.
Qed.

Lemma float_gt_sentinel (x f : float) :
  sentinel_sum verbose f -> float_gt x f = false.
Proof.
  intros [-> | [_ ->]]; [apply float_gt_inf | apply float_gt_nan].
Qed.

Lemma out_sentinel (f : float) (window : list number) (increase : bool) :
  sentinel_sum verbose f ->
  out window_size verbose f window increase = ret tt.
Proof.
  unfold out; intros [-> | [-> ->]]; [| reflexivity].
  destruct verbose, (1 <? window_size); reflexivity.
Qed.

(** One step of the fold while a sentinel stays in the new window: no
    increase is counted. *)
Lemma count_sentinel (c : Z) (j : nat) (l : list number) (x : number) :
  Forall (fun x => usable verbose x = true) l -> usable verbose x = true ->
  count window_size verbose (c, repeat (PyFloat inf) (S (S j)) ++ l) x
  = ret (c, repeat (PyFloat inf) (S j) ++ l ++ [x]).
Proof.
  intros Hl Hx; unfold count.
  assert (Hall : Forall (fun x => usable verbose x = true) (l ++ [x]))
    by (apply Forall_app; split; [assumption | repeat constructor; assumption]).
  rewrite removelast_last, <- app_assoc.
  change (tl (repeat (PyFloat inf) (S (S j)) ++ l ++ [x]))
    with (repeat (PyFloat inf) (S j) ++ l ++ [x]).
  destruct (sum_sentinel j _ Hall) as (s1 & -> & Hs1); cbn [bind ret].
  destruct (truediv_sentinel s1 Hs1) as (new & -> & Hnew); cbn [bind ret].
  destruct (sum_sentinel (S j) _ Hl) as (s2 & -> & Hs2); cbn [bind ret].
  destruct (truediv_sentinel s2 Hs2) as (old & -> & Hold); cbn [bind ret].
  rewrite (float_gt_sentinel new old Hold), (out_sentinel new _ _ Hnew).
  reflexivity.
Qed.

(** While the measurements do not fill the window, nothing is counted. *)
Lemma reduce_sentinel (rest : list number) :
  forall (c : Z) (j : nat) (l : list number),
    (List.length rest <= j)%nat ->
    Forall (fun x => usable verbose x = true) l ->
    Forall (fun x => usable verbose x = true) rest ->
    reduce (count window_size verbose) rest
           (c, repeat (PyFloat inf) (S j) ++ l)
    = ret (c, repeat (PyFloat inf) (S j - List.length rest) ++ l ++ rest).
Proof.
  induction rest as [| x rest IH]; intros c j l Hlen Hl Hrest.
  - cbn [reduce List.length]. rewrite app_nil_r, Nat.sub_0_r; reflexivity.
  - apply Forall_cons_iff in Hrest; destruct Hrest as [Hx Hrest].
    destruct j as [| j]; cbn [List.length] in Hlen; [lia |].
    cbn [reduce].
    rewrite (count_sentinel c j l x Hl Hx); cbn [bind ret].
    rewrite IH; try assumption; try lia.
    + rewrite <- app_assoc; reflexivity.
    + apply Forall_app; split; [assumption | repeat constructor; assumption].
Qed.

End Sentinel.

(** ** Windows of integer measurements *)

Section Counting.

Variable window_size : Z.
Variable verbose : bool.
Hypothesis window_size_pos : 0 < window_size.
Hypothesis window_size_bound : window_size < 2 ^ 1022.

Lemma fits_window_size : fits_float window_size = true.
Proof.
  apply fits_float_below.
  assert (H : 2 ^ 1022 < 2 ^ 1023) by (apply Z.pow_lt_mono_r; lia).
  rewrite Z.abs_eq by lia.
  apply Z.lt_trans with (2 ^ 1022); assumption.
Qed.

Lemma sum_from_ints (a : Z) (zs : list Z) :
  sum_from (PyInt a) (map PyInt zs) = ret (PyInt (a + total zs)).
Proof.
  revert a; induction zs as [| z zs IH]; intros a; cbn [map sum_from total fold_right].
  - rewrite Z.add_0_r; reflexivity.
  - cbn [add bind ret]. rewrite IH. fold (total zs). do 2 f_equal; lia.
Qed.

Lemma sum_ints (zs : list Z) : sum (map PyInt zs) = ret (PyInt (total zs)).
Proof. unfold sum; rewrite sum_from_ints; reflexivity. Qed.

Lemma out_normal (f : float) (window : list number) (increase : bool) :
  normal_or_zero f -> out window_size verbose f window increase = ret tt.
Proof.
  intros Hf; unfold out; destruct verbose, (1 <? window_size); try reflexivity.
  destruct f as [s | s | | s m e]; try contradiction; reflexivity.
Qed.

Lemma averages_compare (a1 a2 : Z) :
  exact_average window_size a1 -> exact_average window_size a2 ->
  exists f1 f2,
    int_truediv a1 window_size = ret f1 /\ int_truediv a2 window_size = ret f2
    /\ normal_or_zero f1 /\ normal_or_zero f2
    /\ float_gt f2 f1 = (a1 <? a2).
Proof.
  intros H1 H2.
  destruct (Z.eq_dec window_size 1) as [Hone | Hne].
  - rewrite Hone in *.
    apply int_truediv_one_gt; [destruct H1 | destruct H2]; lia.
  - apply int_truediv_gt; [destruct H1 | destruct H2 |]; lia.
Qed.

Lemma exact_average_normal (a : Z) :
  exact_average window_size a ->
  exists f, int_truediv a window_size = ret f /\ normal_or_zero f.
Proof.
  intros Ha; destruct (averages_compare a a Ha Ha) as (f & _ & E & _ & N & _).
  exists f; split; assumption.
Qed.

(** The step that pushes the last sentinel out: the old window still
    holds it, so there is no increase. *)
Lemma count_last_sentinel (c : Z) (zs : list Z) (m : Z) :
  Forall (fun z => fits_float z = true) zs ->
  exact_average window_size (total (zs ++ [m])) ->
  count window_size verbose (c, PyFloat inf :: map PyInt zs) (PyInt m)
  = ret (c, map PyInt (zs ++ [m])).
Proof.
  intros Hzs Hsum; unfold count.
  rewrite removelast_last.
  change ((PyFloat inf :: map PyInt zs) ++ [PyInt m])
    with (PyFloat inf :: (map PyInt zs ++ map PyInt [m])).
  rewrite <- map_app; cbn [tl].
  rewrite sum_ints; cbn [bind ret truediv].
  destruct (exact_average_normal _ Hsum) as (f & -> & Hf); cbn [bind ret].
  destruct (sum_sentinel verbose 0 _ (usable_ints verbose zs Hzs))
    as (s & Hs & Hsent).
  cbn [repeat app] in Hs; rewrite Hs; cbn [bind ret].
  destruct (truediv_sentinel window_size verbose window_size_pos
                             fits_window_size s Hsent) as (old & -> & Hold).
  cbn [bind ret].
  rewrite (float_gt_sentinel verbose f old Hold), (out_normal _ _ _ Hf).
  reflexivity.
Qed.

(** A step on a window of measurements only: the averages are compared,
    which is the comparison of the sums. *)
Lemma count_full (c z : Z) (zs : list Z) (m : Z) :
  exact_average window_size (total (z :: zs)) ->
  exact_average window_size (total (zs ++ [m])) ->
  count window_size verbose (c, map PyInt (z :: zs)) (PyInt m)
  = ret (c + (if total (z :: zs) <? total (zs ++ [m]) then 1 else 0),
         map PyInt (zs ++ [m])).
Proof.
  intros Hold Hnew; unfold count.
  rewrite removelast_last.
  change (map PyInt (z :: zs) ++ [PyInt m])
    with (PyInt z :: (map PyInt zs ++ map PyInt [m])).
  rewrite <- map_app; cbn [tl].
  destruct (averages_compare _ _ Hold Hnew) as (f1 & f2 & E1 & E2 & N1 & N2 & Hgt).
  rewrite sum_ints; cbn [bind ret truediv]; rewrite E2; cbn [bind ret].
  rewrite sum_ints; cbn [bind ret truediv]; rewrite E1; cbn [bind ret].
  rewrite Hgt.
  destruct (total (z :: zs) <? total (zs ++ [m]));
    rewrite (out_normal _ _ _ N2); cbn [bind ret]; rewrite ?Z.add_0_r; reflexivity.
Qed.

Lemma count_increases_short (w : nat) (ms : list Z) :
  (List.length ms <= w)%nat -> count_increases w ms = 0.
Proof.
  intros Hlen; unfold count_increases.
  replace (List.length ms - w)%nat with 0%nat by lia; reflexivity.
Qed.

Lemma count_increases_cons (w : nat) (z : Z) (ms : list Z) :
  (w <= List.length ms)%nat ->
  count_increases w (z :: ms)
  = (if window_total w 0 (z :: ms) <? window_total w 0 ms then 1 else 0)
    + count_increases w ms.
Proof.
  intros Hlen; unfold count_increases.
  replace (List.length (z :: ms) - w)%nat with (S (List.length ms - w))
    by (cbn [List.length]; lia).
  rewrite <- cons_seq, <- seq_shift; cbn [filter].
  rewrite filter_map_swap.
  change (window_total w 1 (z :: ms)) with (window_total w 0 ms).
  destruct (window_total w 0 (z :: ms) <? window_total w 0 ms);
    cbn [List.length]; rewrite length_map;
    [rewrite Nat2Z.inj_succ; unfold Z.succ; rewrite Z.add_comm |];
    reflexivity.
Qed.

Lemma windows_exact_tail (w : nat) (z : Z) (ms : list Z) :
  windows_exact w (z :: ms) -> windows_exact w ms.
Proof.
  intros H i Hi. apply (H (S i)); cbn [List.length]; lia.
Qed.

Lemma window_total_0_app (zs rest : list Z) :
  window_total (List.length zs) 0 (zs ++ rest) = total zs.
Proof.
  unfold window_total; cbn [skipn].
  rewrite firstn_app, Nat.sub_diag, firstn_all, app_nil_r; reflexivity.
Qed.

(** Once the window holds measurements only, each step counts an
    increase of the window sum. *)
Lemma reduce_full (rest : list Z) :
  forall (c : Z) (zs : list Z),
    Z.of_nat (List.length zs) = window_size ->
    windows_exact (List.length zs) (zs ++ rest) ->
    exists window,
      reduce (count window_size verbose) (map PyInt rest) (c, map PyInt zs)
      = ret (c + count_increases (List.length zs) (zs ++ rest), window).
Proof.
  induction rest as [| m rest IH]; intros c zs Hlen Hexact.
  - exists (map PyInt zs); cbn [map reduce].
    rewrite count_increases_short, Z.add_0_r by (rewrite app_nil_r; lia).
    reflexivity.
  - destruct zs as [| z zs]; [cbn [List.length] in Hlen; lia |].
    assert (Hlen' : List.length (zs ++ [m]) = List.length (z :: zs))
      by (rewrite length_app; cbn [List.length]; lia).
    assert (Hold : exact_average window_size (total (z :: zs))).
    { rewrite <- Hlen, <- (window_total_0_app (z :: zs) (m :: rest)).
      apply Hexact. rewrite length_app; lia. }
    assert (Hnew : exact_average window_size (total (zs ++ [m]))).
    { rewrite <- Hlen, <- (window_total_0_app (zs ++ [m]) rest), Hlen'.
      rewrite <- app_assoc.
      apply (Hexact 1%nat). rewrite length_app; cbn [List.length]; lia. }
    change (map PyInt (m :: rest)) with (PyInt m :: map PyInt rest).
    cbn [reduce].
    rewrite (count_full c z zs m Hold Hnew); cbn [bind ret].
    destruct (IH (c + (if total (z :: zs) <? total (zs ++ [m]) then 1 else 0))
                 (zs ++ [m])) as [window Hred].
    + rewrite Hlen'; assumption.
    + rewrite Hlen', <- app_assoc. apply (windows_exact_tail _ z), Hexact.
    + exists window; rewrite Hred, Hlen'; f_equal; f_equal.
      rewrite (count_increases_cons _ z (zs ++ m :: rest))
        by (rewrite length_app; cbn [List.length]; lia).
      pose proof (window_total_0_app (z :: zs) (m :: rest)) as H1.
      pose proof (window_total_0_app (zs ++ [m]) rest) as H2.
      rewrite Hlen', <- app_assoc in H2; cbn [app] in H1, H2.
      rewrite H1, H2, <- app_assoc; cbn [app]; lia.
Qed.

Lemma reduce_sentinel_ints (rest : list Z) (c : Z) (j : nat) :
  (List.length rest <= j)%nat -> Forall (fun z => fits_float z = true) rest ->
  reduce (count window_size verbose) (map PyInt rest)
         (c, repeat (PyFloat inf) (S j))
  = ret (c, repeat (PyFloat inf) (S j - List.length rest) ++ map PyInt rest).
Proof.
  intros Hlen Hrest.
  pose proof (reduce_sentinel window_size verbose window_size_pos fits_window_size
                              (map PyInt rest) c j []) as H.
  rewrite length_map, app_nil_r in H; cbn [app] in H.
  apply H; [assumption | constructor | apply usable_ints; assumption].
Qed.

(** The whole fold from the initial window of sentinels. *)
Lemma reduce_counts (ms : list Z) (j : nat) :
  Z.of_nat (S j) = window_size ->
  Forall (fun z => fits_float z = true) ms -> windows_exact (S j) ms ->
  exists window,
    reduce (count window_size verbose) (map PyInt ms)
           (0, repeat (PyFloat inf) (S j))
    = ret (count_increases (S j) ms, window).
Proof.
  intros Hj Hfits Hexact.
  destruct (Nat.le_gt_cases (List.length ms) j) as [Hshort | Hlong].
  - rewrite (reduce_sentinel_ints ms 0 j Hshort Hfits).
    rewrite count_increases_short by lia; eauto.
  - pose proof (firstn_skipn j ms) as Hsplit.
    pose proof (length_skipn j ms) as Hskip.
    assert (Hfront : List.length (firstn j ms) = j)
      by (apply firstn_length_le; lia).
    set (front := firstn j ms) in *.
    destruct (skipn j ms) as [| m rest]; [cbn [List.length] in Hskip; lia |].
    assert (Hzs : List.length (front ++ [m]) = S j)
      by (rewrite length_app; cbn [List.length]; lia).
    assert (Hms : ms = (front ++ [m]) ++ rest)
      by (rewrite <- app_assoc; symmetry; exact Hsplit).
    rewrite Hms in Hfits.
    apply Forall_app in Hfits; destruct Hfits as [Hfzs Hfrest].
    apply Forall_app in Hfzs; destruct Hfzs as [Hffront _].
    replace (map PyInt ms) with (map PyInt front ++ PyInt m :: map PyInt rest)
      by (change (PyInt m :: map PyInt rest) with (map PyInt (m :: rest));
          rewrite <- map_app; f_equal; exact Hsplit).
    rewrite reduce_app.
    rewrite (reduce_sentinel_ints front 0 j) by (assumption || lia).
    rewrite Hfront, Nat.sub_succ_l, Nat.sub_diag by lia.
    cbn [bind ret reduce repeat app].
    rewrite (count_last_sentinel 0 front m Hffront).
    + cbn [bind ret].
      destruct (reduce_full rest 0 (front ++ [m])) as [window Hred].
      * rewrite Hzs; exact Hj.
      * rewrite Hzs, <- Hms; exact Hexact.
      * exists window. rewrite Hred, Hzs, <- Hms; reflexivity.
    + rewrite <- Hj, <- (window_total_0_app (front ++ [m]) rest), <- Hms, Hzs.
      apply (Hexact 0%nat); lia.
Qed.

End Counting.

(** [increases] on integer measurements, in the range where the float
  averages are compared exactly. *)
Lemma increases_exact (ms : list Z) (window_size : Z) (verbose : bool) :
0 < window_size < 2 ^ 1022 ->
Forall (fun z => fits_float z = true) ms ->
windows_exact (Z.to_nat window_size) ms ->
increases (map PyInt ms) window_size verbose
= ret (count_increases (Z.to_nat window_size) ms).
Proof.
intros [Hpos Hbound] Hfits Hexact; unfold increases.
replace (window_size <=? 0) with false by (symmetry; apply Z.leb_gt; lia).
destruct (Z.to_nat window_size) as [| j] eqn:Ew; [lia |].
destruct (reduce_counts window_size verbose Hpos Hbound ms j)
  as [window ->]; try assumption; try lia.
reflexivity.
Qed.



(** ** Exceptions of the fold *)

Section Errors.

Lemma bind_arithmetic_error {A B} (c : result A) (k : A -> result B) (e : exn) :
  (forall e', c = inl e' -> arithmetic_error e') ->
  (forall a e', k a = inl e' -> arithmetic_error e') ->
  bind c k = inl e -> arithmetic_error e.
Proof.
  intros Hc Hk; destruct c as [e' | a]; cbn [bind ret].
  - intros [= <-]; apply Hc; reflexivity.
  - apply Hk.
Qed.

Lemma float_of_int_error (z : Z) (e : exn) :
  float_of_int z = inl e -> arithmetic_error e.
Proof.
  unfold float_of_int; destruct (binary_normalize prec emax z 0 false);
    intros [= <-]; exact I.
Qed.

Lemma float_truediv_error (x y : float) (e : exn) :
  float_truediv x y = inl e -> arithmetic_error e.
Proof.
  unfold float_truediv; destruct (is_zero y); intros [= <-]; exact I.
Qed.

Lemma int_truediv_error (a b : Z) (e : exn) :
  int_truediv a b = inl e -> arithmetic_error e.
Proof.
  unfold int_truediv; destruct (b =? 0); [intros [= <-]; exact I |].
  destruct (SFdiv prec emax (exact_of_int a) (exact_of_int b));
    intros [= <-]; exact I.
Qed.

Lemma add_error (x y : number) (e : exn) :
  add x y = inl e -> arithmetic_error e.
Proof.
  destruct x as [a | f], y as [b | g]; cbn [add]; try discriminate;
    apply bind_arithmetic_error;
    (apply float_of_int_error || (intros; discriminate)).
Qed.

Lemma truediv_error (x y : number) (e : exn) :
  truediv x y = inl e -> arithmetic_error e.
Proof.
  destruct x as [a | f], y as [b | g]; cbn [truediv];
    [ apply int_truediv_error | | | apply float_truediv_error ];
    apply bind_arithmetic_error;
    (apply float_of_int_error || (intros ? ?; apply float_truediv_error)).
Qed.

Lemma sum_from_error (l : list number) :
  forall (start : number) (e : exn),
    sum_from start l = inl e -> arithmetic_error e.
Proof.
  induction l as [| x l IH]; intros start e; cbn [sum_from]; [discriminate |].
  apply bind_arithmetic_error; [apply add_error | intros a e'; apply IH].
Qed.

Lemma round_error (x : float) (e : exn) :
  round x = inl e -> arithmetic_error e.
Proof.
  destruct x; cbn [round]; try discriminate; intros [= <-]; cbn; auto.
Qed.

Lemma out_error (w : Z) (v : bool) (new : float) (window : list number)
      (increase : bool) (e : exn) :
  out w v new window increase = inl e -> arithmetic_error e.
Proof.
  unfold out; destruct v, (1 <? w), (float_eq new inf); try discriminate.
  apply bind_arithmetic_error; [apply round_error | intros; discriminate].
Qed.

Lemma count_error (w : Z) (v : bool) (last : Z * list number)
      (measurement : number) (e : exn) :
  count w v last measurement = inl e -> arithmetic_error e.
Proof.
  destruct last as [c window]; unfold count.
  apply bind_arithmetic_error; [intros e'; apply sum_from_error |]; intros total_new e1.
  apply bind_arithmetic_error; [apply truediv_error |]; intros new e2.
  apply bind_arithmetic_error; [intros e'; apply sum_from_error |]; intros total_old e3.
  apply bind_arithmetic_error; [apply truediv_error |]; intros old e4.
  destruct (float_gt new old);
    (apply bind_arithmetic_error; [apply out_error | intros; discriminate]).
Qed.

Lemma reduce_count_error (w : Z) (v : bool) (ms : list number) :
  forall (last : Z * list number) (e : exn),
    reduce (count w v) ms last = inl e -> arithmetic_error e.
Proof.
  induction ms as [| m ms IH]; intros last e; cbn [reduce]; [discriminate |].
  apply bind_arithmetic_error; [apply count_error | intros a e'; apply IH].
Qed.

End Errors.

(* ===================================================================== *)
(** * Day 1: the contract of [increases] *)
(* ===================================================================== *)

(** C1, as stated, fails: with a window of two measurements, on the report
  [2^52, 2^52, 2^52 + 1] the second window sum exceeds the first by one,
  yet both averages round to the same float and [increases] counts
  nothing. *)
Lemma increases_misses_rounded_average :
0 < 2
/\ count_increases 2 [2 ^ 52; 2 ^ 52; 2 ^ 52 + 1] = 1
/\ increases (map PyInt [2 ^ 52; 2 ^ 52; 2 ^ 52 + 1]) 2 true = ret 0.
Proof. split; [| split]; vm_compute; reflexivity. Qed.

(** C1, amended.  For every window size from 1 to below [2 ^ 1022] and every
  sequence of integer measurements that convert to floats and whose
  window sums stay below [2 ^ 52] in magnitude, [increases] returns the
  number of positions at which the sum (equivalently the average) of the
  most recent [window_size] measurements strictly exceeds that of the
  window just before; equal sums are not counted. *)
Theorem increases_counts_window_increases
      (ms : list Z) (window_size : Z) (verbose : bool) :
0 < window_size < 2 ^ 1022 ->
Forall (fun z => fits_float z = true) ms ->
(forall i : nat, (i + Z.to_nat window_size <= List.length ms)%nat ->
                 Z.abs (window_total (Z.to_nat window_size) i ms) < 2 ^ 52) ->
increases (map PyInt ms) window_size verbose
= ret (count_increases (Z.to_nat window_size) ms).
Proof.
intros Hw Hfits Hsums; apply increases_exact; try assumption.
intros i Hi; right; apply Hsums, Hi.
Qed.

Lemma increases_counts_window_increases_witness :
increases (map PyInt example_report) 3 true
= ret (count_increases (Z.to_nat 3) example_report).
Proof.
apply (increases_counts_window_increases example_report 3 true).
- split; [reflexivity |].
  apply Z.lt_trans with (2 ^ 2); [reflexivity | apply Z.pow_lt_mono_r; lia].
- repeat constructor.
- intros i Hi.
  do 8 (destruct i as [| i]; [vm_compute; reflexivity |]).
  cbn in Hi; lia.
Defined.

(** C3, as stated, fails on the text of the message: the error raised for a
  window size of zero starts with a capital letter. *)
Lemma window_size_message_differs :
0 <= 0
/\ increases [] 0 true = raise (ValueError "Window size must be greater than zero")
/\ increases [] 0 true <> raise (ValueError "window size must be greater than zero").
Proof. split; [| split]; [discriminate | reflexivity | discriminate]. Qed.

(** C3, amended.  For every window size at most zero and every sequence of
  measurements, [increases] raises the [ValueError] whose message is
  "Window size must be greater than zero" and returns no count; for every
  positive window size it never raises this error. *)
Theorem window_size_check
      (ms : list number) (window_size : Z) (verbose : bool) :
(window_size <= 0 ->
 increases ms window_size verbose
 = raise (ValueError "Window size must be greater than zero"))
/\ (0 < window_size ->
    increases ms window_size verbose
    <> raise (ValueError "Window size must be greater than zero")).
Proof.
unfold increases; split; intros Hw.
- replace (window_size <=? 0) with true by (symmetry; apply Z.leb_le; lia).
  reflexivity.
- replace (window_size <=? 0) with false by (symmetry; apply Z.leb_gt; lia).
  destruct (reduce (count window_size verbose) ms
                   (0, repeat (PyFloat inf) (Z.to_nat window_size)))
    as [e | [incr window]] eqn:Hred; cbn [bind]; [| discriminate].
  intros [= ->].
  apply reduce_count_error in Hred; cbn [arithmetic_error] in Hred.
  discriminate Hred.
Qed.

Lemma window_size_check_witness :
increases [PyInt 199; PyInt 200] 0 true
= raise (ValueError "Window size must be greater than zero")
/\ increases [PyInt 199; PyInt 200] 1 true
   <> raise (ValueError "Window size must be greater than zero").
Proof.
split.
- apply (proj1 (window_size_check [PyInt 199; PyInt 200] 0 true)).
  discriminate.
- apply (proj2 (window_size_check [PyInt 199; PyInt 200] 1 true)).
  reflexivity.
Defined.

(** C5.  On the example report [increases] returns 7 with a window of one
  measurement and 5 with a window of three, with or without the trace. *)
Theorem increases_example_report (verbose : bool) :
increases (map PyInt example_report) 1 verbose = ret 7
/\ increases (map PyInt example_report) 3 verbose = ret 5.
Proof. destruct verbose; split; vm_compute; reflexivity. Qed.




(** C8, as stated, fails: a single measurement beyond the float range,
  shorter than the window of two, cannot be added to the sentinel, and
  [increases] raises [OverflowError] instead of returning 0. *)
Lemma increases_short_overflow :
0 < 2 /\ (List.length [PyInt (10 ^ 400)] < 2)%nat
/\ increases [PyInt (10 ^ 400)] 2 true
   = raise (OverflowError "int too large to convert to float")
/\ increases [PyInt (10 ^ 400)] 2 true <> ret 0.
Proof.
split; [| split; [| split]].
- reflexivity.
- apply Nat.lt_succ_diag_r.
- vm_compute; reflexivity.
- vm_compute; discriminate.
Qed.

(** C8, amended.  For every positive window size that converts to a float
  and every sequence strictly shorter than it, made of integers that
  convert to floats and of floats (other than NaN and minus infinity when
  the trace is on), [increases] returns 0: every window still holds a
  sentinel, and a sum with the sentinel is never exceeded. *)
Theorem increases_short_sequence
      (ms : list number) (window_size : Z) (verbose : bool) :
0 < window_size ->
fits_float window_size = true ->
Forall (fun x => usable verbose x = true) ms ->
Z.of_nat (List.length ms) < window_size ->
increases ms window_size verbose = ret 0.
Proof.
intros Hpos Hfits Hms Hshort; unfold increases.
replace (window_size <=? 0) with false by (symmetry; apply Z.leb_gt; lia).
destruct (Z.to_nat window_size) as [| j] eqn:Ew; [lia |].
pose proof (reduce_sentinel window_size verbose Hpos Hfits ms 0 j []) as Hred.
rewrite app_nil_r in Hred; rewrite Hred; [reflexivity | lia | constructor | assumption].
Qed.

Lemma increases_short_sequence_witness :
increases [PyInt 199; PyFloat inf; PyInt 208] 4 true = ret 0.
Proof.
apply (increases_short_sequence [PyInt 199; PyFloat inf; PyInt 208] 4 true).
- reflexivity.
- reflexivity.
- repeat constructor.
- reflexivity.
Defined.
(* ===================================================================== *)
(** * Day 2: further properties of [interpret], the two folds and [main] *)
(* ===================================================================== *)

Section Day02Format.

Local Open Scope string_scope.

Lemma split_space_Some (s : string) :
  no_space s = false -> exists before after, split_space s = Some (before, after).
Proof.
  induction s as [| c s IH]; cbn [no_space split_space]; [discriminate |].
  destruct (Ascii.eqb c " "); cbn [negb andb]; [eauto |].
  intros H; destruct (IH H) as (before & after & ->); eauto.
Qed.

Lemma split_space_inv (s before after : string) :
  split_space s = Some (before, after) ->
  s = before ++ String " " after /\ no_space before = true.
Proof.
  revert before; induction s as [| c s IH]; intros before;
    cbn [split_space]; [discriminate |].
  destruct (Ascii.eqb c " ") eqn:Hc.
  - intros [= <- <-]; apply Ascii.eqb_eq in Hc; subst c; split; reflexivity.
  - destruct (split_space s) as [[b a] |]; [| discriminate].
    intros [= <- <-]; destruct (IH b eq_refl) as [-> Hb].
    cbn [no_space append]; rewrite Hc, Hb; split; reflexivity.
Qed.

(** X1.  The unpacking error of [interpret] is raised for the lines without a
    space, the empty line among them, and for no other line. *)
Theorem interpret_missing_space (line : string) :
  interpret line
  = raise (ValueError "not enough values to unpack (expected 2, got 1)")
  <-> no_space line = true.
Proof.
  split; [| apply interpret_no_space].
  destruct (no_space line) eqn:Hline; [reflexivity |].
  destruct (split_space_Some _ Hline) as (before & after & Hsplit).
  unfold interpret, int; rewrite Hsplit.
  destruct (parse_int after); cbn [bind ret raise]; discriminate.
Qed.

(** X2.  [interpret] cuts the line at its first space: it returns a pair
    exactly when the line is the action, which holds no space, one space,
    and a text that [int] reads as the units.  Further spaces belong to
    the text of the units. *)
Theorem interpret_reads_first_space (line action : string) (units : Z) :
  interpret line = ret (action, units)
  <-> no_space action = true
      /\ exists text, line = action ++ String " " text /\ int text = ret units.
Proof.
  split.
  - unfold interpret.
    destruct (split_space line) as [[before after] |] eqn:Hsplit; [| discriminate].
    destruct (split_space_inv _ _ _ Hsplit) as [-> Hbefore].
    destruct (int after) as [e | z] eqn:Hint; cbn [bind ret]; [discriminate |].
    intros [= <- <-]; split; [assumption | exists after; split; auto].
  - intros (Haction & text & -> & Hint).
    unfold interpret; rewrite (split_space_app _ _ Haction), Hint; reflexivity.
Qed.

End Day02Format.

Section Day02Folds.

Local Open Scope string_scope.

Lemma reduce_simple_shift (lines : list string) (h d : Z) :
  forall h' d',
    reduce process_simple lines (h + h', d + d')
    = ('(h0, d0) <- reduce process_simple lines (h', d') ;; ret (h + h0, d + d0)).
Proof.
  induction lines as [| line lines IH]; intros h' d'; [reflexivity |].
  cbn [reduce]; unfold process_simple.
  destruct (interpret line) as [e | [action units]]; cbn [bind ret]; [reflexivity |].
  destruct (String.eqb action MOVE_UP);
    [| destruct (String.eqb action MOVE_DOWN);
       [| destruct (String.eqb action MOVE_FORWARD)]];
    cbn [bind ret raise]; try reflexivity.
  - replace (d + d' - units) with (d + (d' - units)) by lia; apply IH.
  - replace (d + d' + units) with (d + (d' + units)) by lia; apply IH.
  - replace (h + h' + units) with (h + (h' + units)) by lia; apply IH.
Qed.

Lemma reduce_advanced_shift (lines : list string) (h d a : Z) :
  forall h' d' a',
    reduce process_advanced lines (h + h', d + d' + a * h', a + a')
    = ('(h0, d0, a0) <- reduce process_advanced lines (h', d', a') ;;
       ret (h + h0, d + d0 + a * h0, a + a0)).
Proof.
  induction lines as [| line lines IH]; intros h' d' a'; [reflexivity |].
  cbn [reduce]; unfold process_advanced.
  destruct (interpret line) as [e | [action units]]; cbn [bind ret]; [reflexivity |].
  destruct (String.eqb action MOVE_UP);
    [| destruct (String.eqb action MOVE_DOWN);
       [| destruct (String.eqb action MOVE_FORWARD)]];
    cbn [bind ret raise]; try reflexivity.
  - replace (a + a' - units) with (a + (a' - units)) by lia; apply IH.
  - replace (a + a' + units) with (a + (a' + units)) by lia; apply IH.
  - replace (h + h' + units) with (h + (h' + units)) by lia.
    replace (d + d' + a * h' + units * (a + a'))
      with (d + (d' + units * a') + a * (h' + units)) by lia.
    apply IH.
Qed.

(** X3.  The simple fold started at any position is the fold started at the
    origin, moved by that position; it fails on the same lines, with the
    same exception. *)
Theorem process_simple_from_position (lines : list string) (horiz depth : Z) :
  reduce process_simple lines (horiz, depth)
  = ('(h0, d0) <- reduce process_simple lines (0, 0) ;;
     ret (horiz + h0, depth + d0)).
Proof.
  rewrite <- reduce_simple_shift, !Z.add_0_r; reflexivity.
Qed.

(** X4.  The advanced fold started at any position and aim is the fold started
    at the origin with aim zero, moved by that position; the initial aim
    adds itself to the aim and, multiplied by the distance travelled, to
    the depth.  It fails on the same lines, with the same exception. *)
Theorem process_advanced_from_position (lines : list string) (horiz depth aim : Z) :
  reduce process_advanced lines (horiz, depth, aim)
  = ('(h0, d0, a0) <- reduce process_advanced lines (0, 0, 0) ;;
     ret (horiz + h0, depth + d0 + aim * h0, aim + a0)).
Proof.
  rewrite <- reduce_advanced_shift, Z.mul_0_r, !Z.add_0_r; reflexivity.
Qed.

Lemma moves_cons (direction action : string) (units : Z) (course : list (string * Z)) :
  moves direction ((action, units) :: course)
  = (if String.eqb action direction then units else 0) + moves direction course.
Proof.
  unfold moves; cbn [filter fst].
  destruct (String.eqb action direction); reflexivity.
Qed.

Lemma reduce_simple_course (lines : list string) (course : list (string * Z)) :
  Forall2 (fun line i => interpret line = ret i) lines course ->
  Forall (fun i => recognized (fst i) = true) course ->
  forall h d,
    reduce process_simple lines (h, d)
    = ret (h + travelled course, d + descended course).
Proof.
  induction 1 as [| line [action units] lines course Hline _ IH];
    intros Hcourse h d.
  - cbn [reduce]; unfold travelled, descended, moves; cbn.
    rewrite !Z.add_0_r; reflexivity.
  - apply Forall_cons_iff in Hcourse; destruct Hcourse as [Haction Hcourse].
    cbn [fst] in Haction; cbn [reduce].
    rewrite (process_simple_known _ _ _ _ _ Hline Haction); cbn [bind ret].
    rewrite (IH Hcourse); unfold travelled, descended; rewrite !moves_cons.
    destruct (recognized_cases _ Haction) as [-> | [-> | ->]]; cbn;
      f_equal; f_equal; lia.
Qed.

(** X5.  In simple mode the result is the distance travelled times the net
    descent: for a course whose lines read as known instructions, [pilot]
    returns the sum of the forward units multiplied by the sum of the down
    units less the sum of the up units. *)
Theorem pilot_simple_closed_form (lines : list string) (course : list (string * Z)) :
  Forall2 (fun line i => interpret line = ret i) lines course ->
  Forall (fun i => recognized (fst i) = true) course ->
  pilot lines false = ret (travelled course * descended course).
Proof.
  intros Hlines Hcourse; unfold pilot.
  rewrite (reduce_simple_course _ _ Hlines Hcourse); reflexivity.
Qed.

Lemma pilot_simple_closed_form_witness :
  pilot example_course false
  = ret (travelled [("forward", 5); ("down", 5); ("forward", 8);
                    ("up", 3); ("down", 8); ("forward", 2)]
         * descended [("forward", 5); ("down", 5); ("forward", 8);
                      ("up", 3); ("down", 8); ("forward", 2)]).
Proof.
  apply (pilot_simple_closed_form example_course).
  - repeat constructor.
  - repeat constructor.
Defined.

Lemma process_simple_swap (x y : string) (last : Z * Z) :
  known_instruction x -> known_instruction y ->
  (s <- process_simple last x ;; process_simple s y)
  = (s <- process_simple last y ;; process_simple s x).
Proof.
  intros (ax & ux & Hx & Rx) (ay & uy & Hy & Ry); destruct last as [h d].
  pose proof (fun h d => process_simple_known h d _ _ _ Hx Rx) as Px.
  pose proof (fun h d => process_simple_known h d _ _ _ Hy Ry) as Py.
  rewrite (Px h d), (Py h d); cbn [bind ret]; rewrite Px, Py.
  destruct (recognized_cases _ Rx) as [-> | [-> | ->]],
           (recognized_cases _ Ry) as [-> | [-> | ->]]; cbn;
    f_equal; f_equal; lia.
Qed.

Lemma reduce_simple_permutation (lines lines' : list string) :
  Permutation lines lines' ->
  Forall known_instruction lines ->
  forall last, reduce process_simple lines last = reduce process_simple lines' last.
Proof.
  induction 1 as [| x l l' Hperm IH | x y l | l l' l'' H1 IH1 H2 IH2];
    intros Hknown last.
  - reflexivity.
  - apply Forall_cons_iff in Hknown; destruct Hknown as [Hx Hl].
    cbn [reduce]; destruct (process_simple last x); cbn [bind]; auto.
  - apply Forall_cons_iff in Hknown; destruct Hknown as [Hy Hknown].
    apply Forall_cons_iff in Hknown; destruct Hknown as [Hx Hl].
    cbn [reduce].
    pose proof (process_simple_swap x y last Hx Hy) as Hswap.
    destruct Hx as (ax & ux & Hx & Rx), Hy as (ay & uy & Hy & Ry).
    destruct last as [h d].
    rewrite (process_simple_known h d _ _ _ Hx Rx),
            (process_simple_known h d _ _ _ Hy Ry) in *.
    cbn [bind ret] in *; rewrite Hswap; reflexivity.
  - rewrite (IH1 Hknown); apply IH2.
    apply (Permutation_Forall H1 Hknown).
Qed.

(** X6.  Simple mode does not depend on the order of the instructions: two
    courses of known instructions that are permutations of each other
    give the same result. *)
Theorem pilot_simple_any_order (lines lines' : list string) :
  Forall known_instruction lines ->
  Permutation lines lines' ->
  pilot lines false = pilot lines' false.
Proof.
  intros Hknown Hperm; unfold pilot.
  rewrite (reduce_simple_permutation _ _ Hperm Hknown); reflexivity.
Qed.

Lemma pilot_simple_any_order_witness :
  pilot ["down 5"; "forward 8"; "up 3"] false
  = pilot ["forward 8"; "up 3"; "down 5"] false.
Proof.
  apply (pilot_simple_any_order ["down 5"; "forward 8"; "up 3"]
                                ["forward 8"; "up 3"; "down 5"]).
  - repeat constructor.
    + exists "down", 5; split; reflexivity.
    + exists "forward", 8; split; reflexivity.
    + exists "up", 3; split; reflexivity.
  - apply (Permutation_cons_app ["forward 8"; "up 3"] [] "down 5").
    rewrite app_nil_r; apply Permutation_refl.
Defined.

(** X7.  The two modes fail on the same courses and with the same exception:
    whatever the lines are, [pilot] raises an exception in simple mode
    exactly when it raises that exception in advanced mode. *)
Theorem pilot_modes_fail_alike (lines : list string) (e : exn) :
  pilot lines false = raise e <-> pilot lines true = raise e.
Proof.
  unfold pilot.
  pose proof (reduce_in_step lines 0 0 0) as Hstep.
  destruct (reduce process_simple lines (0, 0)) as [e1 | [h d]],
           (reduce process_advanced lines (0, 0, 0)) as [e2 | [[h' d'] a']];
    cbn [in_step] in Hstep; try contradiction; cbn [bind ret raise].
  - subst e2; reflexivity.
  - split; discriminate.
Qed.

End Day02Folds.

(** ** Lines of a file *)

Section Lines.

Local Open Scope string_scope.

Lemma append_empty (s : string) : s ++ "" = s.
Proof. induction s; cbn [append]; congruence. Qed.


Lemma strip_leading_blank (ws s : string) :
  blank ws = true -> strip_leading (ws ++ s) = strip_leading s.
Proof.
  induction ws as [| c ws IH]; cbn [blank append strip_leading]; [reflexivity |].
  intros H; apply andb_true_iff in H; destruct H as [-> Hws]; auto.
Qed.





Lemma strip_blank (ws : string) : blank ws = true -> strip ws = "".
Proof.
  intros Hws; unfold strip.
  rewrite <- (append_empty ws).
  rewrite (strip_leading_blank _ _ Hws); reflexivity.
Qed.






End Lines.

Section Day02Main.

Local Open Scope string_scope.




(** X9.  A blank line stops [main] of day 2: after lines that are known
    instructions, a line of white space only (an empty line of the file)
    is stripped to the empty text, which [interpret] cannot unpack; the
    error is raised in either mode and nothing after the line is read. *)
Theorem main_blank_line
        (before : list string) (line : string) (after : list string)
        (advanced : bool) :
  Forall known_instruction (List.map strip before) ->
  blank line = true ->
  Day02.main false (before ++ line :: after) advanced
  = raise (ValueError "not enough values to unpack (expected 2, got 1)").
Proof.
  intros Hbefore Hline; unfold Day02.main.
  rewrite map_app; cbn [List.map].
  rewrite (pilot_aborts_at_malformed _ _ _
             (ValueError "not enough values to unpack (expected 2, got 1)")
             advanced Hbefore).
  - reflexivity.
  - rewrite (strip_blank _ Hline); reflexivity.
Qed.

Lemma main_blank_line_witness :
  Day02.main false ["forward 5" ++ LF; LF; "down 3" ++ LF] false
  = raise (ValueError "not enough values to unpack (expected 2, got 1)").
Proof.
  apply (main_blank_line ["forward 5" ++ LF] LF ["down 3" ++ LF] false).
  - repeat constructor; exists "forward", 5; split; reflexivity.
  - reflexivity.
Defined.

End Day02Main.

(* ===================================================================== *)
(** * Day 1: further properties of [out], [count], [increases] and [main] *)
(* ===================================================================== *)

(** ** Quotients of integers are numbers *)

Section Quotients.

Lemma shr_fexp_nonneg (m e : Z) (l : location) :
  0 <= m -> 0 <= shr_m (fst (shr_fexp prec emax m e l)).
Proof.
  intros Hm; unfold shr_fexp, shr.
  destruct (SpecFloat.fexp prec emax (Zdigits2 m + e) - e) as [| n | n];
    cbn [fst]; rewrite ?iter_shr_1_m; rewrite ?shr_m_of_loc; try assumption.
  apply Z.div_pos; [assumption | apply Z.pow_pos_nonneg; lia].
Qed.

Lemma finish_not_nan (sx : bool) (m e : Z) :
  0 <= m -> finish sx m e <> S754_nan.
Proof.
  intros Hm; unfold finish.
  pose proof (shr_fexp_nonneg m e loc_Exact Hm) as H.
  destruct (shr_fexp prec emax m e loc_Exact) as [mrs e']; cbn [fst] in H.
  destruct (shr_m mrs); [discriminate | | lia].
  destruct (e' <=? emax - prec); discriminate.
Qed.

Lemma binary_round_aux_not_nan (sx : bool) (mx ex : Z) (lx : location) :
  0 <= mx -> binary_round_aux prec emax sx mx ex lx <> S754_nan.
Proof.
  intros Hm; rewrite binary_round_aux_finish; apply finish_not_nan.
  pose proof (shr_fexp_nonneg mx ex lx Hm) as H.
  pose proof (round_nearest_even_bounds
                (shr_m (fst (shr_fexp prec emax mx ex lx)))
                (loc_of_shr_record (fst (shr_fexp prec emax mx ex lx)))) as Hr.
  lia.
Qed.

Lemma SFdiv_finite_not_nan (sx sy : bool) (mx my : positive) (ex ey : Z) :
  SFdiv prec emax (S754_finite sx mx ex) (S754_finite sy my ey) <> S754_nan.
Proof.
  cbn [SFdiv]; unfold SFdiv_core_binary.
  set (m' := match ex - ey - _ with
             | Z0 => Zpos mx
             | Zpos _ => Z.shiftl (Zpos mx) _
             | Zneg _ => 0
             end).
  assert (Hm : 0 <= m').
  { subst m'; match goal with |- 0 <= match ?s with _ => _ end => destruct s end;
      [lia | apply Z.shiftl_nonneg; lia | lia]. }
  destruct (Z.div_eucl m' (Zpos my)) as [q r] eqn:E.
  apply binary_round_aux_not_nan.
  replace q with (m' / Zpos my) by (unfold Z.div; rewrite E; reflexivity).
  apply Z.div_pos; [assumption | lia].
Qed.

(** [a / b] on integers, when it returns, returns a zero or a finite
    float. *)
Lemma int_truediv_number (a b : Z) (f : float) :
  int_truediv a b = ret f -> is_nan f = false /\ is_neg_inf f = false.
Proof.
  unfold int_truediv; destruct (b =? 0) eqn:Hb; [discriminate |].
  assert (Hn : SFdiv prec emax (exact_of_int a) (exact_of_int b) <> S754_nan).
  { destruct a as [| pa | pa], b as [| pb | pb]; try discriminate;
      apply SFdiv_finite_not_nan. }
  destruct (SFdiv prec emax (exact_of_int a) (exact_of_int b)) as [s | s | | s m e];
    try discriminate; try congruence; intros [= <-]; split; reflexivity.
Qed.

End Quotients.

(** ** The trace *)

Section Trace.

Lemma out_cases (window_size : Z) (verbose : bool) (new : float)
      (window : list number) (increase : bool) :
  out window_size verbose new window increase
  = (if verbose && (1 <? window_size) && is_nan new then
       raise (ValueError "cannot convert float NaN to integer")
     else if verbose && (1 <? window_size) && is_neg_inf new then
       raise (OverflowError "cannot convert float infinity to integer")
     else ret tt).
Proof.
  unfold out; destruct verbose, (1 <? window_size); cbn [andb]; try reflexivity.
  destruct new as [s | [] | | s m e]; reflexivity.
Qed.


End Trace.

(** ** The window of [count] *)

Section Window.

Lemma bind_ret_inv {A B} (c : result A) (k : A -> result B) (b : B) :
  bind c k = ret b -> exists a, c = ret a /\ k a = ret b.
Proof. destruct c as [e | a]; cbn [bind]; [discriminate | eauto]. Qed.

(** One call of [count]: the window loses its oldest item and gains the
    measurement, and the counter stays or grows by one. *)
Lemma count_window (window_size : Z) (verbose : bool)
      (c : Z) (window : list number) (x : number)
      (c' : Z) (window' : list number) :
  count window_size verbose (c, window) x = ret (c', window') ->
  window' = tl (window ++ [x]) /\ (c' = c \/ c' = c + 1).
Proof.
  unfold count; intros H.
  apply bind_ret_inv in H; destruct H as (total_new & _ & H).
  apply bind_ret_inv in H; destruct H as (new & _ & H).
  apply bind_ret_inv in H; destruct H as (total_old & _ & H).
  apply bind_ret_inv in H; destruct H as (old & _ & H).
  destruct (float_gt new old);
    apply bind_ret_inv in H; destruct H as (u & _ & H);
    injection H as <- <-; auto.
Qed.

Lemma tl_app_cons {A} (l : list A) (x : A) (rest : list A) :
  tl (l ++ [x]) ++ rest = tl (l ++ x :: rest).
Proof.
  destruct l as [| a l]; cbn [tl app]; [reflexivity |].
  rewrite <- app_assoc; reflexivity.
Qed.

Lemma reduce_count_window (window_size : Z) (verbose : bool) (ms : list number) :
  forall (c : Z) (window : list number) (c' : Z) (window' : list number),
    reduce (count window_size verbose) ms (c, window) = ret (c', window') ->
    window' = skipn (List.length ms) (window ++ ms)
    /\ List.length window' = List.length window
    /\ c <= c' <= c + Z.of_nat (List.length ms).
Proof.
  induction ms as [| x ms IH]; intros c window c' window' H.
  - cbn [reduce] in H; injection H as <- <-.
    rewrite app_nil_r; cbn [skipn List.length]; repeat split; lia.
  - cbn [reduce] in H.
    apply bind_ret_inv in H; destruct H as ([c1 window1] & Hcount & H).
    destruct (count_window _ _ _ _ _ _ _ Hcount) as [-> Hc1].
    destruct (IH _ _ _ _ H) as (-> & Hlen & Hc').
    split; [| split].
    + rewrite tl_app_cons; destruct (window ++ x :: ms) eqn:E; [| reflexivity].
      destruct window; discriminate.
    + rewrite Hlen; destruct window as [| a window]; cbn [tl app List.length];
        [reflexivity |].
      rewrite length_app; cbn [List.length]; lia.
    + cbn [List.length]; lia.
Qed.

(** X11.  The fold slides the window: after it, the window holds the last items
    of the initial window followed by the measurements, as many as the
    initial window held; the counter has grown by at most the number of
    measurements. *)
Theorem count_slides_window
        (window_size : Z) (verbose : bool) (ms : list number)
        (c : Z) (window : list number) (c' : Z) (window' : list number) :
  reduce (count window_size verbose) ms (c, window) = ret (c', window') ->
  window' = skipn (List.length ms) (window ++ ms)
  /\ List.length window' = List.length window
  /\ c <= c' <= c + Z.of_nat (List.length ms).
Proof. apply reduce_count_window. Qed.

Lemma count_slides_window_witness :
  reduce (count 2 false) [PyInt 1; PyInt 5; PyInt 3] (0, [PyFloat inf; PyFloat inf])
  = ret (1, [PyInt 5; PyInt 3])
  /\ [PyInt 5; PyInt 3]
     = skipn (List.length [PyInt 1; PyInt 5; PyInt 3])
             ([PyFloat inf; PyFloat inf] ++ [PyInt 1; PyInt 5; PyInt 3])
  /\ List.length [PyInt 5; PyInt 3] = List.length [PyFloat inf; PyFloat inf]
  /\ 0 <= 1 <= 0 + Z.of_nat (List.length [PyInt 1; PyInt 5; PyInt 3]).
Proof.
  assert (H : reduce (count 2 false) [PyInt 1; PyInt 5; PyInt 3]
                     (0, [PyFloat inf; PyFloat inf])
              = ret (1, [PyInt 5; PyInt 3])) by (vm_compute; reflexivity).
  split; [exact H |].
  exact (count_slides_window 2 false [PyInt 1; PyInt 5; PyInt 3]
           0 [PyFloat inf; PyFloat inf] 1 [PyInt 5; PyInt 3] H).
Defined.

End Window.

(** ** What [increases] can return *)

Section Bounds.

Lemma add_top (f : float) (y r : number) :
  top f -> add (PyFloat f) y = ret r -> exists f', r = PyFloat f' /\ top f'.
Proof.
  intros Hf; destruct y as [z | g]; cbn [add].
  - destruct (float_of_int z) as [e | g] eqn:Hg; cbn [bind ret]; [discriminate |].
    intros [= <-]; eexists; split; [reflexivity |].
    destruct (float_of_int_class z g Hg) as [[_ ->] | [_ (m & e & ->)]];
      destruct Hf as [-> | ->]; unfold top; cbn; auto.
  - intros [= <-]; eexists; split; [reflexivity |].
    destruct Hf as [-> | ->]; destruct g as [s | [] | | s m e]; unfold top; cbn; auto.
Qed.

Lemma sum_from_top (l : list number) :
  forall (f : float) (r : number),
    top f -> sum_from (PyFloat f) l = ret r -> exists f', r = PyFloat f' /\ top f'.
Proof.
  induction l as [| y l IH]; intros f r Hf; cbn [sum_from].
  - intros [= <-]; eauto.
  - intros H; apply bind_ret_inv in H; destruct H as (acc & Hadd & H).
    destruct (add_top _ _ _ Hf Hadd) as (f1 & -> & Hf1); eauto.
Qed.

(** The sum of a window whose first item is the sentinel. *)
Lemma sum_head_inf (rest : list number) (r : number) :
  sum (PyFloat inf :: rest) = ret r -> exists f, r = PyFloat f /\ top f.
Proof.
  unfold sum; cbn [sum_from].
  change (add (PyInt 0) (PyFloat inf)) with (@ret number (PyFloat inf)).
  cbn [bind ret]; apply sum_from_top; left; reflexivity.
Qed.

Lemma float_of_int_positive (w : Z) (g : float) :
  0 < w -> float_of_int w = ret g -> exists m e, g = S754_finite false m e.
Proof.
  intros Hw Hg.
  destruct (float_of_int_class _ _ Hg) as [[Hz _] | [_ (m & e & ->)]]; [lia |].
  replace (w <? 0) with false by (symmetry; apply Z.ltb_ge; lia); eauto.
Qed.

Lemma truediv_top (w : Z) (f new : float) :
  0 < w -> top f -> truediv (PyFloat f) (PyInt w) = ret new -> top new.
Proof.
  intros Hw Hf; cbn [truediv].
  destruct (float_of_int w) as [e | g] eqn:Hg; cbn [bind]; [discriminate |].
  destruct (float_of_int_positive _ _ Hw Hg) as (m & e & ->).
  unfold float_truediv; cbn [is_zero]; intros [= <-].
  destruct Hf as [-> | ->]; [left | right]; reflexivity.
Qed.

Lemma float_gt_top (x f : float) : top f -> float_gt x f = false.
Proof. intros [-> | ->]; [apply float_gt_inf | apply float_gt_nan]. Qed.

(** While the old window starts with the sentinel, [count] counts
    nothing, whatever the measurements are. *)
Lemma count_head_inf (w : Z) (v : bool) (c : Z) (rest : list number) (x : number)
      (c' : Z) (window' : list number) :
  0 < w ->
  count w v (c, PyFloat inf :: rest) x = ret (c', window') -> c' = c.
Proof.
  intros Hw; unfold count; intros H.
  apply bind_ret_inv in H; destruct H as (total_new & _ & H).
  apply bind_ret_inv in H; destruct H as (new & _ & H).
  apply bind_ret_inv in H; destruct H as (total_old & Hsum & H).
  apply bind_ret_inv in H; destruct H as (old & Hold & H).
  rewrite removelast_last in Hsum.
  destruct (sum_head_inf _ _ Hsum) as (f & -> & Hf).
  rewrite (float_gt_top new old (truediv_top _ _ _ Hw Hf Hold)) in H.
  apply bind_ret_inv in H; destruct H as (u & _ & H).
  injection H as <- _; reflexivity.
Qed.

Lemma reduce_count_bounds (w : Z) (v : bool) (ms : list number) :
  0 < w ->
  forall (c : Z) (j : nat) (l : list number) (c' : Z) (window' : list number),
    reduce (count w v) ms (c, repeat (PyFloat inf) j ++ l) = ret (c', window') ->
    c <= c' <= c + Z.of_nat (List.length ms - j).
Proof.
  intros Hw; induction ms as [| x ms IH]; intros c j l c' window' H.
  - cbn [reduce] in H; injection H as <- _; cbn [List.length Nat.sub]; lia.
  - cbn [reduce] in H.
    apply bind_ret_inv in H; destruct H as ([c1 window1] & Hcount & H).
    destruct (count_window _ _ _ _ _ _ _ Hcount) as [-> Hc1].
    destruct j as [| j].
    + cbn [repeat app] in H.
      pose proof (IH c1 0%nat (tl (l ++ [x])) c' window' H) as Hc'.
      rewrite Nat.sub_0_r in *; cbn [List.length]; lia.
    + pose proof (count_head_inf _ _ _ _ _ _ _ Hw Hcount) as ->.
      cbn [repeat app tl] in H; rewrite <- app_assoc in H.
      pose proof (IH c j (l ++ [x]) c' window' H) as Hc'.
      cbn [List.length Nat.sub]; lia.
Qed.

(** X12.  When [increases] returns, the count is not negative and is at most
    the number of measurements less the window size: the comparisons that
    involve a sentinel count nothing, whatever the measurements are, floats
    included. *)
Theorem increases_bounds
        (ms : list number) (window_size : Z) (verbose : bool) (n : Z) :
  increases ms window_size verbose = ret n ->
  0 <= n <= Z.of_nat (List.length ms - Z.to_nat window_size).
Proof.
  unfold increases; destruct (window_size <=? 0) eqn:Hw; [discriminate |].
  apply Z.leb_gt in Hw; intros H.
  apply bind_ret_inv in H; destruct H as ([c window] & Hred & H).
  injection H as <-.
  rewrite <- (app_nil_r (repeat _ _)) in Hred.
  apply (reduce_count_bounds _ _ _ Hw) in Hred; lia.
Qed.

Lemma increases_bounds_witness :
  increases (map PyInt example_report) 3 true = ret 5
  /\ 0 <= 5 <= Z.of_nat (List.length (map PyInt example_report) - Z.to_nat 3).
Proof.
  assert (H : increases (map PyInt example_report) 3 true = ret 5)
    by (vm_compute; reflexivity).
  split; [exact H | exact (increases_bounds _ 3 true 5 H)].
Defined.

(** X13.  Measurements that are appended change nothing that came before: an
    exception raised on a sequence is raised on each of its extensions,
    and a count can only grow, by at most the number of measurements
    appended. *)
Theorem increases_extension
        (ms more : list number) (window_size : Z) (verbose : bool) :
  (forall e, increases ms window_size verbose = raise e ->
             increases (ms ++ more) window_size verbose = raise e)
  /\ (forall n n', increases ms window_size verbose = ret n ->
                   increases (ms ++ more) window_size verbose = ret n' ->
                   n <= n' <= n + Z.of_nat (List.length more)).
Proof.
  unfold increases; destruct (window_size <=? 0);
    [split; [auto | discriminate] |].
  rewrite reduce_app.
  destruct (reduce (count window_size verbose) ms
                   (0, repeat (PyFloat inf) (Z.to_nat window_size)))
    as [e0 | [c window]]; cbn [bind ret raise]; split.
  - auto.
  - discriminate.
  - discriminate.
  - intros n n' [= <-] H.
    apply bind_ret_inv in H; destruct H as ([c' window'] & Hred & H).
    injection H as <-.
    apply (reduce_count_window _ _ more) in Hred; lia.
Qed.

Lemma increases_extension_witness :
  increases ([PyInt (10 ^ 400)] ++ [PyInt 1]) 2 true
  = raise (OverflowError "int too large to convert to float")
  /\ 1 <= 2 <= 1 + Z.of_nat (List.length [PyInt 3; PyInt 0]).
Proof.
  split.
  - apply (proj1 (increases_extension [PyInt (10 ^ 400)] [PyInt 1] 2 true)).
    vm_compute; reflexivity.
  - apply (proj2 (increases_extension [PyInt 1; PyInt 2] [PyInt 3; PyInt 0] 1 true)
                 1 2); vm_compute; reflexivity.
Defined.

End Bounds.

(** ** The exceptions of [increases] *)

Section Exceptions.

Variable window_size : Z.
Variable verbose : bool.
Hypothesis window_size_pos : 0 < window_size.

Local Abbreviation fold_raises c := (forall e, c = raise e -> fold_error window_size verbose e).

Lemma bind_raises {A B} (P : exn -> Prop) (c : result A) (k : A -> result B) (e : exn) :
  (forall e', c = raise e' -> P e') ->
  (forall a e', k a = raise e' -> P e') ->
  bind c k = raise e -> P e.
Proof.
  intros Hc Hk; destruct c as [e' | a]; cbn [bind].
  - intros [= <-]; apply Hc; reflexivity.
  - apply Hk.
Qed.

Lemma float_of_int_raises (z : Z) : fold_raises (float_of_int z).
Proof.
  intros e; unfold float_of_int; destruct (binary_normalize prec emax z 0 false);
    intros [= <-]; exact I.
Qed.

Lemma add_raises (x y : number) : fold_raises (add x y).
Proof.
  intros e; destruct x as [a | f], y as [b | g]; cbn [add]; try discriminate;
    apply bind_raises; (apply float_of_int_raises || (intros; discriminate)).
Qed.

Lemma sum_from_raises (l : list number) :
  forall start, fold_raises (sum_from start l).
Proof.
  induction l as [| x l IH]; intros start e; cbn [sum_from]; [discriminate |].
  apply bind_raises; [apply add_raises | intros a e'; apply IH].
Qed.

(** The division by the window size never divides by zero. *)
Lemma truediv_raises (x : number) : fold_raises (truediv x (PyInt window_size)).
Proof.
  intros e; destruct x as [a | f]; cbn [truediv].
  - unfold int_truediv.
    replace (window_size =? 0) with false by (symmetry; apply Z.eqb_neq; lia).
    destruct (SFdiv prec emax (exact_of_int a) (exact_of_int window_size));
      intros [= <-]; exact I.
  - destruct (float_of_int window_size) as [e0 | g] eqn:Hg; cbn [bind].
    + intros [= <-]; apply (float_of_int_raises window_size), Hg.
    + destruct (float_of_int_positive _ _ window_size_pos Hg) as (m & e1 & ->).
      discriminate.
Qed.

Lemma out_raises_fold (new : float) (window : list number) (increase : bool) :
  fold_raises (out window_size verbose new window increase).
Proof.
  intros e; rewrite out_cases.
  destruct (verbose && (1 <? window_size) && is_nan new) eqn:H1.
  - intros [= <-].
    apply andb_true_iff in H1; destruct H1 as [H1 _].
    apply andb_true_iff in H1; destruct H1 as [-> H1].
    apply Z.ltb_lt in H1; cbn; auto.
  - destruct (verbose && (1 <? window_size) && is_neg_inf new);
      intros [= <-]; exact I.
Qed.

Lemma count_raises (last : Z * list number) (measurement : number) :
  fold_raises (count window_size verbose last measurement).
Proof.
  intros e; destruct last as [c window]; unfold count.
  apply bind_raises; [intros e'; apply sum_from_raises |]; intros total_new e1.
  apply bind_raises; [apply truediv_raises |]; intros new e2.
  apply bind_raises; [intros e'; apply sum_from_raises |]; intros total_old e3.
  apply bind_raises; [apply truediv_raises |]; intros old e4.
  destruct (float_gt new old);
    (apply bind_raises; [apply out_raises_fold | intros; discriminate]).
Qed.

Lemma reduce_count_raises (ms : list number) :
  forall last, fold_raises (reduce (count window_size verbose) ms last).
Proof.
  induction ms as [| m ms IH]; intros last e; cbn [reduce]; [discriminate |].
  apply bind_raises; [apply count_raises | intros a e'; apply IH].
Qed.

End Exceptions.

(** X14.  The exceptions of [increases]: for a window size of zero or less the
    [ValueError] of the range check, and for a positive window size only
    an [OverflowError] (an integer or a quotient beyond the float range,
    [round] on an infinity) or the [ValueError] of [round] on a NaN, which
    takes the trace and a window of two or more.  It never raises
    [ZeroDivisionError].  (The list of sentinels is taken to fit in
    memory.) *)
Theorem increases_exceptions
        (ms : list number) (window_size : Z) (verbose : bool) (e : exn) :
  increases ms window_size verbose = raise e ->
  (window_size <= 0
   /\ e = ValueError "Window size must be greater than zero")
  \/ (0 < window_size /\ fold_error window_size verbose e).
Proof.
  unfold increases; destruct (window_size <=? 0) eqn:Hw.
  - apply Z.leb_le in Hw; intros [= <-]; left; auto.
  - apply Z.leb_gt in Hw; intros H; right; split; [assumption |].
    revert H; apply bind_raises.
    + apply reduce_count_raises, Hw.
    + intros [c window] e'; discriminate.
Qed.

Lemma increases_exceptions_witness :
  increases [PyInt (10 ^ 400)] 2 true
  = raise (OverflowError "int too large to convert to float")
  /\ ((2 <= 0
       /\ OverflowError "int too large to convert to float"
          = ValueError "Window size must be greater than zero")
      \/ (0 < 2
          /\ fold_error 2 true (OverflowError "int too large to convert to float"))).
Proof.
  assert (H : increases [PyInt (10 ^ 400)] 2 true
              = raise (OverflowError "int too large to convert to float"))
    by (vm_compute; reflexivity).
  split; [exact H | exact (increases_exceptions _ 2 true _ H)].
Defined.

(** ** The trace and the result *)

Section TraceAndResult.

Lemma add_int_or_sentinel (a x r : number) :
  int_or_sentinel a -> int_or_sentinel x -> add a x = ret r -> int_or_sentinel r.
Proof.
  intros [-> | [s ->]] [-> | [z ->]]; cbn [add].
  - intros [= <-]; left; reflexivity.
  - intros H; apply bind_ret_inv in H; destruct H as (g & Hg & [= <-]).
    destruct (float_of_int_class z g Hg) as [[_ ->] | [_ (m & e & ->)]];
      left; reflexivity.
  - intros H; apply bind_ret_inv in H; destruct H as (g & Hg & [= <-]).
    destruct (float_of_int_class s g Hg) as [[_ ->] | [_ (m & e & ->)]];
      left; reflexivity.
  - intros [= <-]; right; eauto.
Qed.

Lemma sum_from_int_or_sentinel (l : list number) :
  Forall int_or_sentinel l ->
  forall start r,
    int_or_sentinel start -> sum_from start l = ret r -> int_or_sentinel r.
Proof.
  induction 1 as [| x l Hx _ IH]; intros start r Hstart; cbn [sum_from].
  - intros [= <-]; assumption.
  - intros H; apply bind_ret_inv in H; destruct H as (acc & Hadd & H).
    apply (IH acc); [apply (add_int_or_sentinel _ _ _ Hstart Hx Hadd) | assumption].
Qed.

(** The average of a window of integers and sentinels is plus infinity, a
    zero or a finite float. *)
Lemma average_int_or_sentinel (w : Z) (l : list number) (r : number) (new : float) :
  0 < w -> Forall int_or_sentinel l ->
  sum l = ret r -> truediv r (PyInt w) = ret new ->
  is_nan new = false /\ is_neg_inf new = false.
Proof.
  intros Hw Hl Hsum Hdiv.
  assert (Hr : int_or_sentinel r)
    by (apply (sum_from_int_or_sentinel l Hl (PyInt 0)); [right; eauto | exact Hsum]).
  destruct Hr as [-> | [s ->]]; cbn [truediv] in Hdiv.
  - apply bind_ret_inv in Hdiv; destruct Hdiv as (g & Hg & Hdiv).
    destruct (float_of_int_positive _ _ Hw Hg) as (m & e & ->).
    injection Hdiv as <-; split; reflexivity.
  - apply (int_truediv_number _ _ _ Hdiv).
Qed.

Lemma Forall_tl {A} (P : A -> Prop) (l : list A) : Forall P l -> Forall P (tl l).
Proof. intros [| x l' _ H]; [constructor | exact H]. Qed.

Lemma count_trace_integers (w : Z) (c : Z) (window : list number) (x : number) :
  0 < w -> Forall int_or_sentinel window -> int_or_sentinel x ->
  count w true (c, window) x = count w false (c, window) x.
Proof.
  intros Hw Hwindow Hx; unfold count.
  assert (Hnew : Forall int_or_sentinel (tl (window ++ [x])))
    by (apply Forall_tl, Forall_app; split; [assumption | constructor; [assumption | constructor]]).
  destruct (sum (tl (window ++ [x]))) as [e | total_new] eqn:Hsum; cbn [bind];
    [reflexivity |].
  destruct (truediv total_new (PyInt w)) as [e | new] eqn:Hdiv; cbn [bind];
    [reflexivity |].
  destruct (average_int_or_sentinel _ _ _ _ Hw Hnew Hsum Hdiv) as [Hnan Hneg].
  destruct (sum (removelast (window ++ [x]))) as [e | total_old]; cbn [bind];
    [reflexivity |].
  destruct (truediv total_old (PyInt w)) as [e | old]; cbn [bind]; [reflexivity |].
  rewrite !out_cases, Hnan, Hneg, !andb_false_r; reflexivity.
Qed.

Lemma reduce_trace_integers (w : Z) (ms : list number) :
  0 < w -> Forall int_or_sentinel ms ->
  forall c window,
    Forall int_or_sentinel window ->
    reduce (count w true) ms (c, window) = reduce (count w false) ms (c, window).
Proof.
  intros Hw; induction 1 as [| x ms Hx _ IH]; intros c window Hwindow;
    [reflexivity |].
  cbn [reduce]; rewrite (count_trace_integers _ _ _ _ Hw Hwindow Hx).
  destruct (count w false (c, window) x) as [e | [c1 window1]] eqn:Hcount;
    cbn [bind]; [reflexivity |].
  destruct (count_window _ _ _ _ _ _ _ Hcount) as [-> _].
  apply IH, Forall_tl, Forall_app; split; [assumption | constructor; [assumption | constructor]].
Qed.

Lemma increases_trace_off (ms : list Z) (window_size : Z) (verbose : bool) :
  increases (map PyInt ms) window_size verbose
  = increases (map PyInt ms) window_size false.
Proof.
  destruct verbose; [| reflexivity].
  unfold increases; destruct (window_size <=? 0) eqn:Hw; [reflexivity |].
  apply Z.leb_gt in Hw; rewrite reduce_trace_integers; try assumption.
  - reflexivity.
  - apply Forall_forall; intros x Hx; apply in_map_iff in Hx.
    destruct Hx as (z & <- & _); right; eauto.
  - apply Forall_forall; intros x Hx; apply repeat_spec in Hx; left; assumption.
Qed.

(** X15.  On integer measurements the trace changes nothing: with any window
    size, [increases] returns the same count, or raises the same
    exception, whether verbose is on or off. *)
Theorem increases_trace_irrelevant
        (ms : list Z) (window_size : Z) (verbose verbose' : bool) :
  increases (map PyInt ms) window_size verbose
  = increases (map PyInt ms) window_size verbose'.
Proof.
  rewrite (increases_trace_off ms window_size verbose),
          (increases_trace_off ms window_size verbose'); reflexivity.
Qed.

Lemma bind_raise_or {A B} (c : result A) (k : A -> result B) :
  (forall a, c = ret a -> exists e, k a = raise e) ->
  exists e, bind c k = raise e.
Proof.
  intros Hk; destruct c as [e | a]; cbn [bind]; [eexists; reflexivity |].
  apply Hk; reflexivity.
Qed.

Lemma sum_from_app (l1 l2 : list number) :
  forall start,
    sum_from start (l1 ++ l2) = (acc <- sum_from start l1 ;; sum_from acc l2).
Proof.
  induction l1 as [| x l1 IH]; intros start; cbn [app sum_from]; [reflexivity |].
  destruct (add start x) as [e | acc]; cbn [bind]; [reflexivity | apply IH].
Qed.

Lemma add_unguarded (acc : number) (x : float) (r : number) :
  unguarded x -> add acc (PyFloat x) = ret r ->
  exists f, r = PyFloat f /\ unguarded f.
Proof.
  intros Hx; destruct acc as [a | f]; cbn [add].
  - intros H; apply bind_ret_inv in H; destruct H as (g & Hg & [= <-]).
    eexists; split; [reflexivity |].
    destruct (float_of_int_class a g Hg) as [[_ ->] | [_ (m & e & ->)]];
      destruct Hx as [-> | ->]; unfold unguarded; cbn; auto.
  - intros [= <-]; eexists; split; [reflexivity |].
    destruct Hx as [-> | ->]; destruct f as [s | [] | | s m e];
      unfold unguarded; cbn; auto.
Qed.

Lemma truediv_unguarded (w : Z) (f new : float) :
  0 < w -> unguarded f -> truediv (PyFloat f) (PyInt w) = ret new -> unguarded new.
Proof.
  intros Hw Hf; cbn [truediv]; intros H.
  apply bind_ret_inv in H; destruct H as (g & Hg & H).
  destruct (float_of_int_positive _ _ Hw Hg) as (m & e & ->).
  injection H as <-; destruct Hf as [-> | ->]; [left | right]; reflexivity.
Qed.

(** With the trace on and a window of two or more, a call of [count] on
    a NaN or on minus infinity raises. *)
Lemma count_trace_unguarded (w c : Z) (window : list number) (x : float) :
  1 < w -> window <> [] -> unguarded x ->
  exists e, count w true (c, window) (PyFloat x) = raise e.
Proof.
  intros Hw Hwindow Hx; unfold count.
  destruct window as [| a l]; [congruence |]; cbn [app tl].
  apply bind_raise_or; intros total_new Hsum.
  unfold sum in Hsum; rewrite sum_from_app in Hsum.
  apply bind_ret_inv in Hsum; destruct Hsum as (acc & _ & Hsum).
  cbn [sum_from] in Hsum.
  apply bind_ret_inv in Hsum; destruct Hsum as (r & Hadd & [= <-]).
  destruct (add_unguarded _ _ _ Hx Hadd) as (f & -> & Hf).
  apply bind_raise_or; intros new Hnew.
  assert (Hbad : unguarded new) by (apply (truediv_unguarded w f); [lia | assumption ..]).
  apply bind_raise_or; intros total_old _.
  apply bind_raise_or; intros old _.
  assert (Hout : forall window' increase,
             exists e, out w true new window' increase = raise e).
  { intros window' increase; rewrite out_cases.
    replace (1 <? w) with true by (symmetry; apply Z.ltb_lt; assumption).
    destruct Hbad as [-> | ->]; cbn; eexists; reflexivity. }
  destruct (float_gt new old); apply bind_raise_or; intros u Hu;
    match type of Hu with
    | out _ _ _ ?l ?i = _ => destruct (Hout l i) as [e He]
    end; rewrite He in Hu; discriminate.
Qed.

(** X16.  With the trace on and a window of two or more measurements, a
    measurement that is a NaN or minus infinity makes [increases] raise,
    wherever it stands in the sequence: [out] guards [round] against plus
    infinity only. *)
Theorem increases_trace_unguarded
        (before : list number) (x : float) (after : list number) (window_size : Z) :
  1 < window_size -> unguarded x ->
  exists e, increases (before ++ PyFloat x :: after) window_size true = raise e.
Proof.
  intros Hw Hx; unfold increases.
  replace (window_size <=? 0) with false by (symmetry; apply Z.leb_gt; lia).
  apply bind_raise_or; intros [c window]; rewrite reduce_app; intros H.
  apply bind_ret_inv in H; destruct H as ([c0 window0] & Hbefore & H).
  cbn [reduce] in H.
  apply bind_ret_inv in H; destruct H as (s & Hcount & _).
  apply reduce_count_window in Hbefore; destruct Hbefore as (_ & Hlen & _).
  assert (Hne : window0 <> [])
    by (intros ->; rewrite repeat_length in Hlen; cbn [List.length] in Hlen; lia).
  destruct (count_trace_unguarded window_size c0 window0 x Hw Hne Hx) as [e He].
  rewrite He in Hcount; discriminate.
Qed.

Lemma increases_trace_unguarded_witness :
  exists e, increases ([PyInt 199] ++ PyFloat neg_inf :: [PyInt 208]) 2 true = raise e.
Proof.
  apply (increases_trace_unguarded [PyInt 199] neg_inf [PyInt 208] 2).
  - reflexivity.
  - right; reflexivity.
Defined.

End TraceAndResult.

(** ** [main]: measurements read from the lines of a file *)

Section Day01Main.

Local Open Scope string_scope.

Lemma reduce_lazy_ret {A B} (f : A -> B -> result A) (xs : list B) :
  forall init, reduce_lazy f (List.map ret xs) init = reduce f xs init.
Proof.
  induction xs as [| x xs IH]; intros init; cbn [List.map reduce_lazy reduce];
    [reflexivity |].
  cbn [bind ret]; destruct (f init x); cbn [bind]; auto.
Qed.

Lemma reduce_lazy_app {A B} (f : A -> B -> result A) (l1 l2 : list (result B)) :
  forall init,
    reduce_lazy f (l1 ++ l2) init = bind (reduce_lazy f l1 init) (reduce_lazy f l2).
Proof.
  induction l1 as [| x l1 IH]; intros init; cbn [app reduce_lazy]; [reflexivity |].
  destruct x as [e | b]; cbn [bind]; [reflexivity |].
  destruct (f init b); cbn [bind]; auto.
Qed.


Lemma lazy_map_read (lines : list string) (zs : list Z) :
  Forall2 (fun line z => int (strip line) = ret z) lines zs ->
  lazy_map (fun line => z <- int (strip line) ;; ret (PyInt z)) lines
  = List.map ret (List.map PyInt zs).
Proof.
  unfold lazy_map; induction 1 as [| line z lines zs Hline _ IH];
    cbn [List.map]; [reflexivity |].
  rewrite Hline, IH; reflexivity.
Qed.




(** X18.  A line that [int] cannot read stops [main] of day 1 where it stands:
    the lines before it are folded first, so that the window size check
    and any exception of the fold on them come first; otherwise the
    exception of [int] is raised, and no line after it is read. *)
Theorem main_unreadable_line
        (good : list string) (zs : list Z) (bad : string) (rest : list string)
        (window : Z) (verbose : bool) (e : exn) :
  Forall2 (fun line z => int (strip line) = ret z) good zs ->
  int (strip bad) = raise e ->
  Day01.main false (good ++ bad :: rest) window verbose
  = (_ <- increases (List.map PyInt zs) window verbose ;; raise e).
Proof.
  intros Hgood Hbad; unfold Day01.main, Day01.increases_lazy, increases, lazy_map.
  destruct (window <=? 0)%Z; [reflexivity |].
  rewrite map_app, reduce_lazy_app; cbn [List.map].
  fold (lazy_map (fun line => z <- int (strip line) ;; ret (PyInt z)) good).
  rewrite (lazy_map_read _ _ Hgood), reduce_lazy_ret.
  destruct (reduce (count window verbose) (List.map PyInt zs)
                   (0, repeat (PyFloat inf) (Z.to_nat window)))
    as [e0 | [c w]]; cbn [bind ret]; [reflexivity |].
  cbn [reduce_lazy]; rewrite Hbad; reflexivity.
Qed.

Lemma main_unreadable_line_witness :
  Day01.main false (["199" ++ LF; "200" ++ LF] ++ LF :: ["208" ++ LF]) 1 true
  = (_ <- increases (List.map PyInt [199; 200]) 1 true ;;
     raise (InvalidLiteral "")).
Proof.
  apply (main_unreadable_line ["199" ++ LF; "200" ++ LF] [199; 200] LF
                              ["208" ++ LF] 1 true (InvalidLiteral "")).
  - repeat constructor.
  - reflexivity.
Defined.

End Day01Main.
